(** * Instance segmentation exercise: distance transform and watershed glue

    Shallow embedding of the array code written in [exercise.ipynb]:

    - [compute_sdt]: the per-axis boundary indicator it builds by slicing,
      comparing and padding the label mask, the sampling grid, and the
      function as a whole over an abstract float type, the values scipy
      computes being left open (module [SDT]);
    - [watershed_from_boundary_distance], over an arbitrary element type
      for the field and with the two routines it calls as section
      variables (module [Watershed]);
    - [find_local_maxima], whose body the notebook leaves blank: as
      shipped (in module [Watershed]), and filled in after section 4.3 of
      the specification to run the glue code (module [Maxima]);
    - a reference flood that meets the contract assumed of scikit-image's
      [watershed], to run the glue code on concrete arrays (module
      [Flood]);
    - the terrain handed to [watershed] in binary64 (module [Binary64]);
    - what a fixed-width integer array stores of a sum (module [Dtype]);
    - [get_inner_mask] and the evaluation step that thresholds a prediction
      and segments it (module [Postprocess]);
    - the two dataset classes, [SDTDataset] and [AffinityDataset], with the
      file system, the libraries and torch's random generator as
      parameters (modules [Loader], [SDTDataset], [AffinityDataset]). *)

From Corelib Require Import PrimFloat.
From Stdlib Require Import ZArith QArith Lia FunctionalExtensionality.
From stdpp Require Import base decidable option list numbers relations.
From stdpp Require Import strings pretty.

Open Scope Z_scope.
Open Scope nat_scope.

(** ** Arrays *)

(** A numpy array is its shape together with the value stored at each
    multi-index.  Only indices within the shape carry meaning. *)
Record ndarray (A : Type) : Type := NdArray {
  shape : list nat;
  item : list nat → A
}.
Arguments NdArray {A} _ _.
Arguments shape {A} _.
Arguments item {A} _ _.

(** [i] addresses an element of an array of shape [s]. *)
Definition in_bounds (s i : list nat) : Prop := Forall2 lt i s.

(** All multi-indices of a shape, in row-major (C) order. *)
Fixpoint indices (s : list nat) : list (list nat) :=
  match s with
  | [] => [[]]
  | n :: s' => c ← seq 0 n; (c ::.) <$> indices s'
  end.

(** [np.zeros(shape)] and friends: a constant array. *)
Definition full {A} (s : list nat) (v : A) : ndarray A := NdArray s (λ _, v).

(** A one-dimensional array from its elements, and a two-dimensional one
    from its rows. *)
Definition array1 {A} (d : A) (l : list A) : ndarray A :=
  NdArray [length l] (λ i, match i with [c] => nth c l d | _ => d end).

Definition array2 {A} (d : A) (cols : nat) (rows : list (list A)) : ndarray A :=
  NdArray [length rows; cols]
          (λ i, match i with [r; c] => nth c (nth r rows []) d | _ => d end).

(** ** Python slices (step 1) *)

Record pyslice : Type := Slice { start : option Z; stop : option Z }.

(** [slice.indices(n)] for one bound: [None] takes the default, a negative
    bound counts from the end, and the result is clipped to [0..n]. *)
Definition clip_bound (n : nat) (b : option Z) (dflt : nat) : nat :=
  match b with
  | None => dflt
  | Some z => if (z <? 0)%Z then Z.to_nat (Z.max (z + Z.of_nat n) 0)
              else Z.to_nat (Z.min z (Z.of_nat n))
  end.

Definition slice_start (sl : pyslice) (n : nat) : nat := clip_bound n (start sl) 0.
Definition slice_stop (sl : pyslice) (n : nat) : nat := clip_bound n (stop sl) n.
Definition slice_len (sl : pyslice) (n : nat) : nat := slice_stop sl n - slice_start sl n.

(** [a[*slices]] with one slice per axis. *)
Definition getitem {A} (a : ndarray A) (slices : list pyslice) : ndarray A :=
  NdArray (zip_with slice_len slices (shape a))
          (λ i, item a (zip_with plus (zip_with slice_start slices (shape a)) i)).

(** Element-wise [a == b] on integer arrays of one shape. *)
Definition array_eq (a b : ndarray Z) : ndarray bool :=
  NdArray (shape a) (λ i, (item a i =? item b i)%Z).

(** [np.pad(a, pad_width, mode="constant", constant_values=cval)]. *)
Definition inside_pad (s : list nat) (pad_width : list (nat * nat)) (i : list nat) : bool :=
  forallb id (zip_with (λ c nw, (nw.2.1 <=? c) && (c <? nw.2.1 + nw.1)) i (zip s pad_width)).

Definition np_pad {A} (a : ndarray A) (pad_width : list (nat * nat)) (cval : A) : ndarray A :=
  NdArray (zip_with (λ n w, w.1 + n + w.2) (shape a) pad_width)
          (λ i, if inside_pad (shape a) pad_width i
                then item a (zip_with (λ c w, c - w.1) i pad_width)
                else cval).

(** ** Exceptions *)

Inductive exn : Type := TypeError | ValueError.

(** The outcome of a call: a value, or a raised exception. *)
Inductive result (A : Type) : Type :=
| Return (a : A)
| Raise (e : exn).
Arguments Return {A} _.
Arguments Raise {A} _.

#[global] Instance result_ret : MRet result := λ A a, Return a.
#[global] Instance result_fmap : FMap result := λ A B f r,
  match r with Return a => Return (f a) | Raise e => Raise e end.
#[global] Instance result_bind : MBind result := λ A B f r,
  match r with Return a => f a | Raise e => Raise e end.

(** ** compute_sdt *)

Module SDT.

(** [[slice(None) if a != axis else slice(1, None) for a in range(dims)]] *)
Definition slices_from_1 (dims axis : nat) : list pyslice :=
  (λ a, if decide (a ≠ axis) then Slice None None else Slice (Some 1%Z) None) <$> seq 0 dims.

(** [[slice(None) if a != axis else slice(None, -1) for a in range(dims)]] *)
Definition slices_to_m1 (dims axis : nat) : list pyslice :=
  (λ a, if decide (a ≠ axis) then Slice None None else Slice None (Some (-1)%Z)) <$> seq 0 dims.

(** [[(1, 1) if a == axis else (0, 0) for a in range(dims)]] *)
Definition pad_widths (dims axis : nat) : list (nat * nat) :=
  (λ a, if decide (a = axis) then (1, 1) else (0, 0)) <$> seq 0 dims.

(** The comparison of each label with its successor along [axis]: an entry
    is [true] where the two labels are equal. *)
Definition bounds_unpadded (labels : ndarray Z) (axis : nat) : ndarray bool :=
  let dims := length (shape labels) in
  array_eq (getitem labels (slices_from_1 dims axis))
           (getitem labels (slices_to_m1 dims axis)).

(** [bounds] as handed to [distance_transform_edt]: the comparison padded
    by one entry of value 1 on both sides of [axis]. *)
Definition bounds (labels : ndarray Z) (axis : nat) : ndarray bool :=
  np_pad (bounds_unpadded labels axis) (pad_widths (length (shape labels)) axis) true.

(** [distance_transform_edt] replaces every non-zero entry by its distance
    to the nearest zero entry.  In [bounds] the zero ([false]) entries are
    the places where adjacent labels differ, so [false] is the value that
    means "is boundary". *)
Definition is_boundary (b : bool) : bool := negb b.

(** The entries of [bounds labels axis] at the two ends of [axis]. *)
Definition at_domain_edge (labels : ndarray Z) (axis : nat) (i : list nat) : Prop :=
  in_bounds (shape (bounds labels axis)) i ∧
  ∃ m, shape (bounds labels axis) !! axis = Some m ∧
       (i !! axis = Some 0 ∨ i !! axis = Some (m - 1)).

(** A mask carrying one label everywhere. *)
Definition uniform (labels : ndarray Z) (v : Z) : Prop :=
  ∀ i, in_bounds (shape labels) i → item labels i = v.

(** A single uniform foreground label in one dimension, and a 2 x 3 mask
    with two instances on a background. *)
Definition labels_777 : ndarray Z := array1 0%Z [7; 7; 7]%Z.
Definition labels_2x3 : ndarray Z := array2 0%Z 3 [[1; 1; 2]; [0; 1; 2]]%Z.

(** *** The sampling grid *)

(** [np.linspace(start, stop, num)], in exact arithmetic. *)
Definition linspace (start stop : Q) (num : nat) : list Q :=
  match num with
  | 0 => []
  | 1 => [start]
  | _ => (λ k, start + inject_Z (Z.of_nat k) * ((stop - start) / inject_Z (Z.of_nat (num - 1))))%Q
         <$> seq 0 num
  end.

(** [range(k)] as coordinates. *)
Definition range (k : nat) : list Q := (λ c, inject_Z (Z.of_nat c)) <$> seq 0 k.

(** [np.stack] of the [np.meshgrid] of the vectors with "ij" indexing:
    entry [a :: i] is element [i_a] of vector [a]. *)
Definition meshgrid_stack (vectors : list (list Q)) : ndarray Q :=
  NdArray (length vectors :: (length <$> vectors))
          (λ ai, match ai with
                 | a :: i => nth (nth a i 0) (nth a vectors []) 0%Q
                 | [] => 0%Q
                 end).

(** The coordinates at which [axis_distances] is sampled: along [axis]
    [labels.shape[axis]] points from 0.5 to [axis_distances.shape[axis] -
    1.5], along every other axis the integer positions. *)
Definition coordinates (labels_shape distances_shape : list nat) (axis : nat)
    : ndarray Q :=
  meshgrid_stack
    ((λ a, if decide (a ≠ axis) then range (nth a distances_shape 0)
           else linspace (1 # 2)
                         (inject_Z (Z.of_nat (nth a distances_shape 0)) - (3 # 2))
                         (nth a labels_shape 0))
       <$> seq 0 (length labels_shape)).

(** *** The whole function over an abstract float type *)

Section ComputeSDT.

(** The float type of the distance field with the operations of numpy the
    function applies element-wise. *)
Context {F : Type}.
Variable finf : F.
Variable fmin : F → F → F.
Variable fdiv : F → F → F.
Variable fmul : F → F → F.
Variable ftanh : F → F.
Variable of_int : Z → F.

(** The two scipy routines.  Their values are left open; their result
    shapes are the documented ones: the distance transform has the shape
    of its input, and [map_coordinates] returns one value per point of the
    coordinate grid ([coordinates.shape[1:]]). *)
Variable edt_values : ndarray bool → list nat → F.
Variable map_coordinates_values : ndarray F → ndarray Q → list nat → F.

Definition distance_transform_edt (input : ndarray bool) : ndarray F :=
  NdArray (shape input) (edt_values input).

Definition map_coordinates (input : ndarray F) (coords : ndarray Q) : ndarray F :=
  NdArray (tail (shape coords)) (map_coordinates_values input coords).

(** [sampled] for one axis. *)
Definition sampled (labels : ndarray Z) (axis : nat) : ndarray F :=
  let axis_distances := distance_transform_edt (bounds labels axis) in
  map_coordinates axis_distances
    (coordinates (shape labels) (shape axis_distances) axis).

(** [np.minimum(a, b)] for arrays of one shape (shapes that differ are
    reported as an error; broadcasting is not modelled). *)
Definition np_minimum (a b : ndarray F) : result (ndarray F) :=
  if decide (shape a = shape b)
  then Return (NdArray (shape a) (λ i, fmin (item a i) (item b i)))
  else Raise ValueError.

(** The loop over the axes, starting from [np.ones(labels.shape) * np.inf]. *)
Definition min_over_axes (labels : ndarray Z) (axes : list nat) : result (ndarray F) :=
  foldl (λ acc axis, distances ← acc; np_minimum distances (sampled labels axis))
        (Return (full (shape labels) finf)) axes.

(** For a 0-d mask numpy turns the intermediate results into scalars;
    that case is outside what is stated about this definition. *)
Definition compute_sdt (labels : ndarray Z) (scale : Z) : result (ndarray F) :=
  distances ← min_over_axes labels (seq 0 (length (shape labels)));
  let distances :=
    NdArray (shape distances) (λ i, ftanh (fdiv (item distances i) (of_int scale))) in
  mret (NdArray (shape distances)
          (λ i, if (item labels i =? 0)%Z
                then fmul (item distances i) (of_int (-1))
                else item distances i)).

(** The unsquashed value at [i]: the minimum over the axes of the sampled
    distances, starting from infinity. *)
Definition min_distance (labels : ndarray Z) (axes : list nat) (i : list nat) : F :=
  foldl (λ acc axis, fmin acc (item (sampled labels axis) i)) finf axes.

End ComputeSDT.

End SDT.

(** ** watershed_from_boundary_distance *)

Module Watershed.

(** What the function hands back: the bare segmentation array, or the pair
    of an array and the id offset. *)
Inductive pyvalue : Type :=
| PyArray (segmentation : ndarray Z)
| PyTuple (segmentation : ndarray Z) (id_offset : Z).

Definition segmentation_of (v : pyvalue) : ndarray Z :=
  match v with PyArray a => a | PyTuple a _ => a end.

(** [len(v)] as a caller unpacking [a, b = v] sees it: 2 for the pair, the
    first dimension for an array (none for a 0-d array). *)
Definition py_len (v : pyvalue) : option nat :=
  match v with
  | PyTuple _ _ => Some 2
  | PyArray a => head (shape a)
  end.




Section Glue.

(** The field's element type with the two operations of its dtype the
    function uses: the maximum of two values, as [ndarray.max] folds it,
    and subtraction. *)
Context {V : Type}.
Variable vmax : V → V → V.
Variable vsub : V → V → V.

(** The two routines the function calls.  [find_local_maxima] is the cell
    the exercise leaves to the reader; [watershed] is scikit-image's. *)
Variable find_local_maxima : ndarray V → Z → result (ndarray Z * Z).
Variable watershed : ndarray V → ndarray Z → ndarray bool → result (ndarray Z).

(** [a.max()]: a reduction over all elements, an error on an empty array. *)
Definition amax (a : ndarray V) : result V :=
  match item a <$> indices (shape a) with
  | [] => Raise ValueError
  | x :: xs => Return (foldl vmax x xs)
  end.

(** [seeds[seeds != 0] += id_offset], the sum being the integer sum.  The
    seed map is an array of a fixed-width integer dtype ([int32] for the
    maps [label] returns) and stores [Dtype.wrapped] of the sum, which is
    the sum itself as long as it is representable in the dtype. *)
Definition offset_seeds (seeds : ndarray Z) (id_offset : Z) : ndarray Z :=
  NdArray (shape seeds)
          (λ i, if (item seeds i =? 0)%Z then item seeds i
                else (item seeds i + id_offset)%Z).

(** [boundary_distances.max() - boundary_distances] *)
Definition terrain (boundary_distances : ndarray V) : result (ndarray V) :=
  m ← amax boundary_distances;
  mret (NdArray (shape boundary_distances) (λ i, vsub m (item boundary_distances i))).

(** The annotation of [id_offset] reads [float]; every call in the
    notebook passes the integer 0, and the offset is added in place to the
    integer seed map, so it is an integer here. *)
Definition watershed_from_boundary_distance
    (boundary_distances : ndarray V) (inner_mask : ndarray bool)
    (id_offset : Z) (min_seed_distance : Z) : result pyvalue :=
  '(seeds, n) ← find_local_maxima boundary_distances min_seed_distance;
  if (n =? 0)%Z then
    mret (PyTuple (full (shape boundary_distances) 0%Z) id_offset)
  else
    let seeds := offset_seeds seeds id_offset in
    image ← terrain boundary_distances;
    segmentation ← watershed image seeds inner_mask;
    mret (PyArray segmentation).

(** The part of [skimage.segmentation.watershed]'s documented behaviour
    the glue code relies on: for markers and mask of the image's shape it
    returns an array of that shape, labels only points where the mask is
    true, and every label it writes is the label of a marker lying inside
    the mask. *)
Definition watershed_contract : Prop :=
  ∀ image markers mask,
    shape markers = shape image → shape mask = shape image →
    ∃ out, watershed image markers mask = Return out ∧
      shape out = shape image ∧
      (∀ i, in_bounds (shape image) i → item mask i = false → item out i = 0%Z) ∧
      (∀ i, in_bounds (shape image) i → item out i ≠ 0%Z →
            ∃ j, in_bounds (shape image) j ∧ item mask j = true ∧
                 item markers j = item out i).

(** An array with at least one element. *)
Definition nonempty {A} (a : ndarray A) : Prop := indices (shape a) ≠ [].

(** What the glue code needs of the cell the reader fills in: the seed map
    has the shape of the field it was computed from. *)
Definition find_local_maxima_contract : Prop :=
  ∀ field d seeds n,
    find_local_maxima field d = Return (seeds, n) → shape seeds = shape field.

End Glue.

End Watershed.

(** ** find_local_maxima *)

Module Maxima.

(** In the notebook the body of [find_local_maxima] is the blank the
    exercise asks for ([seeds, number_of_seeds = ...], see
    [Watershed.find_local_maxima_as_shipped]).  The definitions of this
    module follow section 4.3 of the specification instead: they are one
    way of filling the blank, used below to run the glue code on concrete
    arrays, and say nothing of the code the notebook ships.  Two choices
    are this module's own: a flat stretch of the field that no larger
    value overlooks is a candidate like any other position (a uniform
    field is one region), and a window of no sample has no maximum (no
    position is a candidate). *)

(** Modelled from the spec: the body of [find_local_maxima] is missing.
    "A neighborhood sized by the minimum-distance parameter": along every
    axis the window of [i] holds [size] consecutive coordinates, placed as
    [maximum_filter] centres them ([size / 2] of them before [i]). *)
Definition in_window (size : nat) (i j : list nat) : bool :=
  bool_decide (length i = length j) &&
  forallb id (zip_with (λ c d, (c <=? d + size / 2) && (d + size / 2 <? c + size)) i j).

(** Modelled from the spec: the body of [find_local_maxima] is missing.
    The larger of two field values. *)
Definition qmax (x y : Q) : Q := if Qle_bool x y then y else x.

(** Modelled from the spec: the body of [find_local_maxima] is missing.
    "Apply a local maximum filter over a neighborhood": the maximum of the
    field over the part of the window of [i] inside the array; there is
    none when the window is empty. *)
Definition maximum_filter (field : ndarray Q) (size : nat) (i : list nat) : option Q :=
  match item field <$> filter (λ j, in_window size i j = true) (indices (shape field)) with
  | [] => None
  | x :: xs => Some (foldl qmax x xs)
  end.

(** Modelled from the spec: the body of [find_local_maxima] is missing.
    "A position is a seed candidate if its value equals the filtered
    (locally maximal) value at that position." *)
Definition candidate (field : ndarray Q) (size : nat) (i : list nat) : bool :=
  match maximum_filter field size i with
  | Some m => Qeq_bool m (item field i)
  | None => false
  end.

(** Modelled from the spec: the body of [find_local_maxima] is missing.
    Two positions are neighbours when they differ by one step along one
    axis (the connectivity [label] uses when given no structure). *)
Definition adjacent (i j : list nat) : bool :=
  bool_decide (length i = length j) &&
  (sum_list (zip_with (λ c d, (c - d) + (d - c)) i j) =? 1).

Section Labelling.

(** The candidate predicate and the positions of the array. *)
Variable cand : list nat → bool.
Variable universe : list (list nat).

(** Modelled from the spec: the body of [find_local_maxima] is missing.
    "Connected": two candidate positions of the array that are neighbours
    touch, and positions are connected when a chain of touching positions
    joins them. *)
Definition touches (a b : list nat) : Prop :=
  a ∈ universe ∧ b ∈ universe ∧ cand a = true ∧ cand b = true ∧ adjacent a b = true.

Definition connected : relation (list nat) := rtc touches.

(** Modelled from the spec: the body of [find_local_maxima] is missing.
    One round of growing a region: the candidates not yet in [region] that
    touch it are added. *)
Definition grow (region : list (list nat)) : list (list nat) :=
  region ++ filter (λ q, cand q = true ∧ (q ∉ region) ∧
                         Exists (λ r, adjacent r q = true) region) universe.

(** Modelled from the spec: the body of [find_local_maxima] is missing.
    "Connected candidate region" of [p]: grown as often as there are
    positions. *)
Definition region_of (p : list nat) : list (list nat) :=
  Nat.iter (length universe) grow [p].

(** Modelled from the spec: the body of [find_local_maxima] is missing.
    The regions in the order in which a row-major scan meets them. *)
Fixpoint collect (todo : list (list nat)) (regions : list (list (list nat)))
    : list (list (list nat)) :=
  match todo with
  | [] => regions
  | p :: todo' =>
      if decide (cand p = true ∧ Forall (λ r, p ∉ r) regions)
      then collect todo' (regions ++ [region_of p])
      else collect todo' regions
  end.

(** Modelled from the spec: the body of [find_local_maxima] is missing.
    "Distinct positive-integer seed ids": the number of the first region
    holding [q], counted from 1, and 0 outside every region. *)
Fixpoint seed_id (regions : list (list (list nat))) (q : list nat) : nat :=
  match regions with
  | [] => 0
  | r :: regions' =>
      if decide (q ∈ r) then 1
      else match seed_id regions' q with 0 => 0 | S k => S (S k) end
  end.

(** A region grown from a candidate position of the array. *)
Definition rooted (r : list (list nat)) : Prop :=
  ∃ p, p ∈ universe ∧ cand p = true ∧ r = region_of p.

(** Every id from 1 to the number of regions is the id of some position. *)
Definition ids_used (regs : list (list (list nat))) : Prop :=
  ∀ k, 1 ≤ k ≤ length regs → ∃ q, seed_id regs q = k.

End Labelling.

(** Modelled from the spec: the body of [find_local_maxima] is missing.
    "Label connected candidate regions into distinct positive-integer seed
    ids; the count of seeds is reported alongside the seed map." *)
Definition find_local_maxima (distance_transform : ndarray Q)
    (min_dist_between_points : nat) : ndarray Z * Z :=
  let universe := indices (shape distance_transform) in
  let regions :=
    collect (candidate distance_transform min_dist_between_points) universe universe [] in
  (NdArray (shape distance_transform) (λ i, Z.of_nat (seed_id regions i)),
   Z.of_nat (length regions)).

(** The two components of the returned pair. *)
Definition seeds (field : ndarray Q) (d : nat) : ndarray Z := (find_local_maxima field d).1.
Definition number_of_seeds (field : ndarray Q) (d : nat) : Z := (find_local_maxima field d).2.

(** Two unit impulses at [p] and [q] in a zero background. *)
Definition two_impulses (s p q : list nat) : ndarray Q :=
  NdArray s (λ i, if decide (i = p ∨ i = q) then 1%Q else 0%Q).

(** Nine samples with unit impulses at positions 1 and 7. *)
Definition field_1_7 : ndarray Q := two_impulses [9] [1] [7].

End Maxima.

(** ** A seeded flood meeting the watershed contract *)

Module Flood.

(** A reference implementation of a seeded watershed by flooding, used to
    show that the contract assumed of [skimage.segmentation.watershed] can
    be met and to run the glue code on concrete arrays.  It is not
    scikit-image's code. *)

Section Flood.

Context {V : Type}.
Variable vleb : V → V → bool.

(** The markers inside the mask. *)
Definition masked_markers (markers : ndarray Z) (mask : ndarray bool)
    (i : list nat) : Z :=
  if item mask i then item markers i else 0%Z.

(** The unlabelled positions inside the mask that touch a labelled
    position, each with the label of its first labelled neighbour. *)
Definition frontier (universe : list (list nat)) (mask : ndarray bool)
    (labels : list nat → Z) : list (list nat * Z) :=
  omap (λ p,
          if item mask p && (labels p =? 0)%Z then
            match filter (λ q, Maxima.adjacent p q = true ∧ labels q ≠ 0%Z) universe with
            | q :: _ => Some (p, labels q)
            | [] => None
            end
          else None) universe.

(** The frontier position of lowest terrain (the first one among equals). *)
Definition lowest (image : ndarray V) (front : list (list nat * Z))
    : option (list nat * Z) :=
  match front with
  | [] => None
  | x :: xs =>
      Some (foldl (λ best y, if vleb (item image best.1) (item image y.1)
                             then best else y) x xs)
  end.

(** One flooding step: the lowest frontier position takes its label. *)
Definition flood_step (image : ndarray V) (universe : list (list nat))
    (mask : ndarray bool) (labels : list nat → Z) : list nat → Z :=
  match lowest image (frontier universe mask labels) with
  | Some (p, l) => λ i, if decide (i = p) then l else labels i
  | None => labels
  end.

Definition watershed (image : ndarray V) (markers : ndarray Z)
    (mask : ndarray bool) : result (ndarray Z) :=
  if decide (shape markers = shape image ∧ shape mask = shape image) then
    let universe := indices (shape image) in
    Return (NdArray (shape image)
              (Nat.iter (length universe) (flood_step image universe mask)
                        (masked_markers markers mask)))
  else Raise ValueError.

(** What every flooding state satisfies: nothing outside the mask is
    labelled, and every label is the label of a marker inside the mask. *)
Definition flood_invariant (universe : list (list nat)) (markers : ndarray Z)
    (mask : ndarray bool) (labels : list nat → Z) : Prop :=
  ∀ i, i ∈ universe →
       (item mask i = false → labels i = 0%Z) ∧
       (labels i ≠ 0%Z →
        ∃ j, j ∈ universe ∧ item mask j = true ∧ item markers j = labels i).

End Flood.

(** The glue code run on rational fields, with the specification's
    [find_local_maxima] and the reference flood. *)
Definition find_local_maxima_Q (field : ndarray Q) (d : Z) : result (ndarray Z * Z) :=
  Return (Maxima.find_local_maxima field (Z.to_nat d)).

Definition watershed_from_boundary_distance_Q
    (boundary_distances : ndarray Q) (inner_mask : ndarray bool)
    (id_offset : Z) (min_seed_distance : Z) : result Watershed.pyvalue :=
  Watershed.watershed_from_boundary_distance Maxima.qmax Qminus
    find_local_maxima_Q (watershed Qle_bool)
    boundary_distances inner_mask id_offset min_seed_distance.

(** A mask over the nine-sample field that leaves out samples 0, 4 and 5,
    and an empty field. *)
Definition mask_9 : ndarray bool :=
  array1 false [false; true; true; true; false; false; true; true; true].

Definition empty_field : ndarray Q := array1 0%Q [].
Definition empty_mask : ndarray bool := array1 false [].

End Flood.

(** ** The terrain in binary64 *)

Module Binary64.

(** The larger of two floats, as [ndarray.max] compares them (no NaN is
    involved below). *)
Definition fmax (x y : float) : float := if PrimFloat.ltb x y then y else x.

(** [boundary_distances.max() - boundary_distances] on a float64 field. *)
Definition terrain64 (boundary_distances : ndarray float) : result (ndarray float) :=
  Watershed.terrain fmax PrimFloat.sub boundary_distances.

(** [-boundary_distances] *)
Definition negated (boundary_distances : ndarray float) : ndarray float :=
  NdArray (shape boundary_distances) (λ i, PrimFloat.opp (item boundary_distances i)).

(** A field with maximum 1 and two small distinct values, 2^-60 and 2^-59. *)
Definition field_small : ndarray float :=
  array1 0%float [1%float; 0x1p-60%float; 0x1p-59%float].

End Binary64.

(** ** Integer dtypes *)

Module Dtype.


(** What an array of that dtype stores for the integer [z]: [z] reduced
    into the range of the dtype (wrap-around). *)
Definition wrapped (value_bits : nat) (z : Z) : Z :=
  ((z + 2 ^ Z.of_nat value_bits) `mod` 2 ^ (Z.of_nat value_bits + 1)
   - 2 ^ Z.of_nat value_bits)%Z.

End Dtype.


(** ** Renaming instance ids *)

(** The mask with every label [x] replaced by [f x]. *)
Definition relabel (f : Z → Z) (labels : ndarray Z) : ndarray Z :=
  NdArray (shape labels) (λ i, f (item labels i)).

(** A mask of one row, as a mask with a leading axis of length 1. *)
Definition labels_1x3 : ndarray Z := array2 0%Z 3 [[1; 1; 2]]%Z.

(** ** Thresholding and the evaluation step *)

Module Postprocess.
Import Watershed.

Section Postprocess.

(** The element type of the prediction with the comparison [x > y] of its
    dtype, and what [watershed_from_boundary_distance] is built from. *)
Context {V : Type}.
Variable vgt : V → V → bool.
Variable vmax : V → V → V.
Variable vsub : V → V → V.
Variable find_local_maxima : ndarray V → Z → result (ndarray Z * Z).
Variable watershed : ndarray V → ndarray Z → ndarray bool → result (ndarray Z).

(** [pred > threshold], element-wise against the scalar threshold. *)
Definition get_inner_mask (pred : ndarray V) (threshold : V) : ndarray bool :=
  NdArray (shape pred) (λ i, vgt (item pred i) threshold).

(** The two statements of the evaluation loop that turn a prediction into
    labels.  The threshold, which the loop takes from [threshold_otsu], is
    an argument. *)
Definition pred_labels (pred : ndarray V) (thresh : V) : result pyvalue :=
  let inner_mask := get_inner_mask pred thresh in
  watershed_from_boundary_distance vmax vsub find_local_maxima watershed
    pred inner_mask 0 20.

End Postprocess.


(** [x > y] on rationals. *)
Definition Qgt_bool (x y : Q) : bool := negb (Qle_bool x y).

End Postprocess.

(** ** The datasets *)

Module Loader.

(** The exceptions of the dataset code: the two that its own statements
    raise, and whatever a library routine or a transform raises, by class
    name. *)
Inductive exception : Type :=
| IndexError
| AttributeError
| Raised (name : string).

Inductive outcome (A : Type) : Type :=
| Value (a : A)
| Exception (e : exception).
Arguments Value {A} _.
Arguments Exception {A} _.

#[global] Instance outcome_ret : MRet outcome := λ A a, Value a.
#[global] Instance outcome_bind : MBind outcome := λ A B f r,
  match r with Value a => f a | Exception e => Exception e end.

(** Code that reads and sets the state [R] of torch's global random
    generator and may raise.  The state reached when an exception is
    raised is kept. *)
Definition io (R A : Type) : Type := R → outcome A * R.

#[global] Instance io_ret {R} : MRet (io R) := λ A a st, (Value a, st).
#[global] Instance io_bind {R} : MBind (io R) := λ A B f m st,
  match m st with
  | (Value a, st') => f a st'
  | (Exception e, st') => (Exception e, st')
  end.

Definition lift {R A} (o : outcome A) : io R A := λ st, (o, st).
Definition raise {R A} (e : exception) : io R A := λ st, (Exception e, st).

(** [l[idx]] on a Python list: a negative index counts from the end. *)
Definition list_getitem {X} (l : list X) (idx : Z) : outcome X :=
  let k := if (idx <? 0)%Z then (idx + Z.of_nat (length l))%Z else idx in
  if (k <? 0)%Z then Exception IndexError
  else match l !! Z.to_nat k with
       | Some x => Value x
       | None => Exception IndexError
       end.

(** [l[i] = x] for an index that is not negative. *)
Definition list_setitem {X} (l : list X) (i : nat) (x : X) : outcome (list X) :=
  if decide (i < length l) then Value (<[i := x]> l) else Exception IndexError.

(** [os.path.join(a, b)] on a POSIX system: an absolute [b] replaces [a],
    otherwise the two are joined by one separator unless [a] is empty or
    ends in one. *)
Definition ends_with_sep (path : string) : bool :=
  bool_decide (String.substring (String.length path - 1) 1 path = "/").

Definition path_join (a b : string) : string :=
  if String.prefix "/" b then b
  else if bool_decide (a = "") || ends_with_sep a then a +:+ b
  else a +:+ "/" +:+ b.

(** What [path_join] puts in front of a relative name. *)
Definition dirname_prefix (root_dir : string) : string :=
  if bool_decide (root_dir = "") || ends_with_sep root_dir then root_dir
  else root_dir +:+ "/".

(** Decimal digits, strings of digits, and strings that do not go on with
    a digit. *)
Definition is_digit (c : Ascii.ascii) : bool :=
  (48 <=? Ascii.nat_of_ascii c) && (Ascii.nat_of_ascii c <=? 57).

Fixpoint all_digits (s : string) : Prop :=
  match s with
  | EmptyString => True
  | String c s => is_digit c = true ∧ all_digits s
  end.

Definition no_leading_digit (s : string) : Prop :=
  match s with
  | EmptyString => True
  | String c _ => is_digit c = false
  end.

(** The attributes of a dataset object.  [T] is the type of the objects
    it holds and hands around (tensors, and [None]); a transform is any
    callable, which may draw from the generator and may raise. *)
Record dataset (T R : Type) : Type := Dataset {
  root_dir : string;
  num_samples : nat;
  return_mask : bool;
  transform : option (T → io R T);
  img_transform : option (T → io R T);
  loaded_imgs : list T;
  loaded_masks : list T
}.
Arguments Dataset {T R} _ _ _ _ _ _ _.
Arguments root_dir {T R} _.
Arguments num_samples {T R} _.
Arguments return_mask {T R} _.
Arguments transform {T R} _.
Arguments img_transform {T R} _.
Arguments loaded_imgs {T R} _.
Arguments loaded_masks {T R} _.

(** What [__getitem__] returns: a tuple of two or of three objects. *)
Inductive sample (T : Type) : Type :=
| Pair (image target : T)
| Triple (image mask target : T).
Arguments Pair {T} _ _.
Arguments Triple {T} _ _ _.

(** The constructor, which the two dataset classes share up to the suffix
    of the mask files and the transforms applied to the image on
    loading. *)
Section Loading.

(** The file system and the libraries: [os.listdir], [tifffile.imread]
    (files are not changed while they are loaded), [torch.from_numpy], and
    the object [None]. *)
Context {A T R : Type}.
Variable listdir : string → outcome (list string).
Variable imread : string → outcome A.
Variable from_numpy : A → outcome T.
Variable py_None : T.
Variable mask_suffix : string.
Variable inp_transforms : T → outcome T.

Definition img_path (root_dir : string) (sample_ind : nat) : string :=
  path_join root_dir ("img_" +:+ pretty sample_ind +:+ ".tif").

Definition mask_path (root_dir : string) (sample_ind : nat) : string :=
  path_join root_dir ("img_" +:+ pretty sample_ind +:+ mask_suffix).

(** [inp_transforms(self.to_img(tifffile.imread(img_path)))] *)
Definition load_img (root_dir : string) (sample_ind : nat) : outcome T :=
  arr ← imread (img_path root_dir sample_ind);
  image ← from_numpy arr;
  inp_transforms image.

(** [self.to_img(tifffile.imread(mask_path))] *)
Definition load_mask (root_dir : string) (sample_ind : nat) : outcome T :=
  arr ← imread (mask_path root_dir sample_ind);
  from_numpy arr.

(** One round of the loading loop on the pair of [loaded_imgs] and
    [loaded_masks]. *)
Definition load_sample (root_dir : string) (lists : list T * list T)
    (sample_ind : nat) : outcome (list T * list T) :=
  image ← load_img root_dir sample_ind;
  imgs ← list_setitem lists.1 sample_ind image;
  mask ← load_mask root_dir sample_ind;
  masks ← list_setitem lists.2 sample_ind mask;
  mret (imgs, masks).

(** The loop over [range(num_samples)], starting from the two lists
    [[None] * num_samples]. *)
Definition load_samples (root_dir : string) (num_samples : nat)
    : outcome (list T * list T) :=
  foldl (λ acc sample_ind, lists ← acc; load_sample root_dir lists sample_ind)
        (Value (replicate num_samples py_None, replicate num_samples py_None))
        (seq 0 num_samples).

Definition init (root_dir : string) (transform img_transform : option (T → io R T))
    (return_mask : bool) : outcome (dataset T R) :=
  entries ← listdir root_dir;
  let num_samples := length entries / 3 in
  lists ← load_samples root_dir num_samples;
  mret (Dataset root_dir num_samples return_mask transform img_transform
                lists.1 lists.2).

(** What [k] successful rounds of the loop leave in the two lists of
    length [n]. *)
Definition loaded_prefix (root_dir : string) (n k : nat) (lists : list T * list T)
    : Prop :=
  length lists.1 = n ∧ length lists.2 = n ∧
  (∀ i, i < k →
        ∃ x m, load_img root_dir i = Value x ∧ load_mask root_dir i = Value m ∧
               lists.1 !! i = Some x ∧ lists.2 !! i = Some m) ∧
  (∀ i, k ≤ i → i < n → lists.1 !! i = Some py_None ∧ lists.2 !! i = Some py_None).

End Loading.

(** The global generator: [torch.manual_seed(seed)] puts it in the state
    [seeded seed]; [torch.seed()] does so for a number [fresh] that is not
    determined by the program, and returns that number. *)
Section Seeding.

Context {R : Type}.
Variable seeded : Z → R.

Definition torch_seed (fresh : Z) : io R Z := λ _, (Value fresh, seeded fresh).
Definition manual_seed (seed : Z) : io R () := λ _, (Value (), seeded seed).

End Seeding.

End Loader.

Module SDTDataset.
Import Loader.

Section SDTDataset.

Context {A T R : Type}.
Variable listdir : string → outcome (list string).
Variable imread : string → outcome A.
Variable from_numpy : A → outcome T.
Variable py_None : T.

(** [v2.ToDtype(torch.float32, scale=True)], [v2.Normalize([0.5], [0.5])]
    and [Tensor.unsqueeze]. *)
Variable to_dtype : T → outcome T.
Variable normalize : T → outcome T.
Variable seeded : Z → R.
Variable unsqueeze : T → Z → outcome T.

Definition inp_transforms (image : T) : outcome T :=
  image ← to_dtype image; normalize image.

Definition __init__ (root_dir : string) (transform img_transform : option (T → io R T))
    (return_mask : bool) : outcome (dataset T R) :=
  init listdir imread from_numpy py_None "_nuclei_masks.tif" inp_transforms
       root_dir transform img_transform return_mask.

Definition __len__ (self : dataset T R) : nat := num_samples self.

(** The method as the notebook ships it: [sdt] is bound to the placeholder
    [...], which has no attribute [unsqueeze], so both [return] statements
    raise [AttributeError] when they come to [sdt.unsqueeze(0)].  [fresh]
    is the number [torch.seed()] draws. *)
Definition __getitem__ (self : dataset T R) (idx : Z) (fresh : Z) : io R (sample T) :=
  image ← lift (list_getitem (loaded_imgs self) idx);
  mask ← lift (list_getitem (loaded_masks self) idx);
  '(image, mask) ←
    match transform self with
    | Some transform =>
        seed ← torch_seed seeded fresh;
        _ ← manual_seed seeded seed;
        image ← transform image;
        _ ← manual_seed seeded seed;
        mask ← transform mask;
        mret (image, mask)
    | None => mret (image, mask)
    end;
  image ← match img_transform self with
          | Some img_transform => img_transform image
          | None => mret image
          end;
  if return_mask self then
    _ ← lift (unsqueeze mask 0%Z);
    raise AttributeError
  else raise AttributeError.

End SDTDataset.

End SDTDataset.

Module AffinityDataset.
Import Loader.

Section AffinityDataset.

Context {A T R : Type}.
Variable listdir : string → outcome (list string).
Variable imread : string → outcome A.
Variable from_numpy : A → outcome T.
Variable py_None : T.
Variable normalize : T → outcome T.
Variable seeded : Z → R.

(** [np.asarray], [local.compute_affinities] (not part of the notebook)
    and [Tensor.float]. *)
Variable np_asarray : T → outcome A.
Variable compute_affinities : A → list (list Z) → outcome A.
Variable to_float : T → outcome T.

Definition inp_transforms (image : T) : outcome T := normalize image.

Definition __init__ (root_dir : string) (transform img_transform : option (T → io R T))
    (return_mask : bool) : outcome (dataset T R) :=
  init listdir imread from_numpy py_None "_cyto_masks.tif" inp_transforms
       root_dir transform img_transform return_mask.

Definition __len__ (self : dataset T R) : nat := num_samples self.

Definition create_aff_target (mask : T) : outcome T :=
  arr ← np_asarray mask;
  aff_target_array ← compute_affinities arr [[0; 1]; [1; 0]]%Z;
  aff_target ← from_numpy aff_target_array;
  to_float aff_target.

Definition __getitem__ (self : dataset T R) (idx : Z) (fresh : Z) : io R (sample T) :=
  image ← lift (list_getitem (loaded_imgs self) idx);
  mask ← lift (list_getitem (loaded_masks self) idx);
  '(image, mask) ←
    match transform self with
    | Some transform =>
        seed ← torch_seed seeded fresh;
        _ ← manual_seed seeded seed;
        image ← transform image;
        _ ← manual_seed seeded seed;
        mask ← transform mask;
        mret (image, mask)
    | None => mret (image, mask)
    end;
  aff_mask ← lift (create_aff_target mask);
  image ← match img_transform self with
          | Some img_transform => img_transform image
          | None => mret image
          end;
  if return_mask self then mret (Triple image mask aff_mask)
  else mret (Pair image aff_mask).

End AffinityDataset.

End AffinityDataset.

(** ** A directory of two samples *)

Module TrainDir.
Import Loader.

(** A small file system to run the dataset code on: arrays and tensors are
    flat lists of integers ([None] for Python's [None]), the generator
    state is an integer, and the library routines are stand-ins. *)
Definition files : list (string * list Z) :=
  [("tissuenet_data/train/img_0.tif", [0; 64; 128; 255]);
   ("tissuenet_data/train/img_0_cyto_masks.tif", [1; 1; 2; 2]);
   ("tissuenet_data/train/img_0_nuclei_masks.tif", [0; 1; 2; 0]);
   ("tissuenet_data/train/img_1.tif", [255; 128; 64; 0]);
   ("tissuenet_data/train/img_1_cyto_masks.tif", [3; 3; 3; 4]);
   ("tissuenet_data/train/img_1_nuclei_masks.tif", [0; 3; 0; 4])]%Z.

Definition listdir (path : string) : outcome (list string) :=
  if bool_decide (path = "tissuenet_data/train")
  then Value ["img_0.tif"; "img_0_cyto_masks.tif"; "img_0_nuclei_masks.tif";
              "img_1.tif"; "img_1_cyto_masks.tif"; "img_1_nuclei_masks.tif"]
  else Exception (Raised "FileNotFoundError").

Definition imread (path : string) : outcome (list Z) :=
  match list_find (λ f, f.1 = path) files with
  | Some (_, f) => Value f.2
  | None => Exception (Raised "FileNotFoundError")
  end.

Definition from_numpy (arr : list Z) : outcome (option (list Z)) := Value (Some arr).

Definition to_dtype (t : option (list Z)) : outcome (option (list Z)) := Value t.

Definition normalize (t : option (list Z)) : outcome (option (list Z)) :=
  Value (fmap (M:=list) (λ v, 2 * v - 255)%Z <$> t).

Definition unsqueeze (t : option (list Z)) (dim : Z) : outcome (option (list Z)) :=
  Value t.

Definition np_asarray (t : option (list Z)) : outcome (list Z) :=
  match t with
  | Some arr => Value arr
  | None => Exception (Raised "TypeError")
  end.

(** 1 where a label and its successor agree. *)
Definition compute_affinities (arr : list Z) (nhood : list (list Z))
    : outcome (list Z) :=
  Value (zip_with (λ x y, if (x =? y)%Z then 1 else 0)%Z arr (drop 1 arr)).

Definition to_float (t : option (list Z)) : outcome (option (list Z)) := Value t.

Definition seeded (seed : Z) : Z := seed.

(** A random crop of two elements: the offset is drawn from the generator,
    which moves on by one. *)
Definition draw (st : Z) : nat := Z.to_nat (st `mod` 3).
Definition next (st : Z) : Z := (st + 1)%Z.
Definition crop (p : nat) (t : option (list Z)) : option (list Z) :=
  (λ l, take 2 (drop p l)) <$> t.
Definition random_crop (t : option (list Z)) : io Z (option (list Z)) :=
  λ st, (Value (crop (draw st) t), next st).

(** [AffinityDataset("tissuenet_data/train", v2.RandomCrop(...))], and
    the same directory without a transform. *)
Definition train_data : outcome (dataset (option (list Z)) Z) :=
  AffinityDataset.__init__ listdir imread from_numpy None normalize
    "tissuenet_data/train" (Some random_crop) None false.

Definition plain_data : outcome (dataset (option (list Z)) Z) :=
  AffinityDataset.__init__ listdir imread from_numpy None normalize
    "tissuenet_data/train" None None false.

Definition get (self : dataset (option (list Z)) Z) (idx fresh : Z)
    : io Z (sample (option (list Z))) :=
  AffinityDataset.__getitem__ from_numpy seeded np_asarray compute_affinities
    to_float self idx fresh.

End TrainDir.

(** ** Proof automation *)

(** Closes [in_bounds s i] for a concrete shape and an index whose
    coordinates are bounded by arithmetic facts in the context. *)
Ltac solve_in_bounds :=
  unfold in_bounds; simpl; repeat (constructor 2; [lia|]); constructor 1.

(** Unfolds the sequencing of the dataset code. *)
Ltac io_simpl :=
  cbv [mbind mret Loader.io_bind Loader.io_ret Loader.outcome_bind Loader.outcome_ret
       Loader.lift Loader.raise Loader.torch_seed Loader.manual_seed].

(** * Properties *)

(** ** List helpers *)

Lemma forallb_id_lookup_false (l : list bool) (k : nat) :
  l !! k = Some false → forallb id l = false.
Proof.
  revert k. induction l as [|b l IH]; intros [|k] H; simplify_eq/=; [done|].
  rewrite (IH _ H). apply andb_false_r.
Qed.

Lemma forallb_id_lookup_true (l : list bool) (k : nat) (b : bool) :
  forallb id l = true → l !! k = Some b → b = true.
Proof.
  revert k. induction l as [|c l IH]; intros [|k] Hall H; simplify_eq/=.
  - by apply andb_true_iff in Hall as [? _].
  - apply andb_true_iff in Hall as [_ ?]. eauto.
Qed.

Lemma forallb_id_all (l : list bool) :
  (∀ k b, l !! k = Some b → b = true) → forallb id l = true.
Proof.
  induction l as [|c l IH]; intros H; [done|]. simpl.
  rewrite (H 0 c eq_refl), IH; [done|]. intros k b Hk. by apply (H (S k)).
Qed.

Lemma comprehension_lookup {A} (f : nat → A) (dims k : nat) :
  k < dims → (f <$> seq 0 dims) !! k = Some (f k).
Proof. intros H. by rewrite list_lookup_fmap, lookup_seq_lt. Qed.

Lemma comprehension_length {A} (f : nat → A) (dims : nat) :
  length (f <$> seq 0 dims) = dims.
Proof. by rewrite length_fmap, length_seq. Qed.

(** ** The boundary indicator of compute_sdt *)

Section BoundsFacts.
Import SDT.

Lemma slice_len_from_1 (n : nat) : slice_len (Slice (Some 1%Z) None) n = n - 1.
Proof. unfold slice_len, slice_stop, slice_start, clip_bound; simpl. lia. Qed.

Lemma slice_len_all (n : nat) : slice_len (Slice None None) n = n.
Proof. unfold slice_len, slice_stop, slice_start, clip_bound; simpl. lia. Qed.

Lemma slice_len_to_m1 (n : nat) : slice_len (Slice None (Some (-1)%Z)) n = n - 1.
Proof. unfold slice_len, slice_stop, slice_start, clip_bound; simpl. lia. Qed.

Lemma bounds_unpadded_shape_lookup (labels : ndarray Z) (axis k n : nat) :
  shape labels !! k = Some n →
  shape (bounds_unpadded labels axis) !! k = Some (if decide (k = axis) then n - 1 else n).
Proof.
  intros Hn. pose proof (lookup_lt_Some _ _ _ Hn) as Hk.
  unfold bounds_unpadded, array_eq, getitem, slices_from_1; simpl.
  rewrite lookup_zip_with, comprehension_lookup, Hn by done; simpl.
  repeat case_decide; try done; f_equal.
  - apply slice_len_all.
  - apply slice_len_from_1.
Qed.

Lemma bounds_shape_lookup (labels : ndarray Z) (axis k n : nat) :
  shape labels !! k = Some n →
  shape (bounds labels axis) !! k = Some (if decide (k = axis) then n - 1 + 2 else n).
Proof.
  intros Hn. pose proof (lookup_lt_Some _ _ _ Hn) as Hk.
  unfold bounds, np_pad, pad_widths; cbn [shape].
  rewrite lookup_zip_with, (bounds_unpadded_shape_lookup _ _ _ _ Hn); simpl.
  rewrite comprehension_lookup by done; simpl.
  case_decide; simpl; f_equal; lia.
Qed.

Lemma bounds_unpadded_shape_length (labels : ndarray Z) (axis : nat) :
  length (shape (bounds_unpadded labels axis)) = length (shape labels).
Proof.
  unfold bounds_unpadded, array_eq, getitem, slices_from_1; simpl.
  rewrite length_zip_with, comprehension_length. lia.
Qed.

Lemma bounds_shape_length (labels : ndarray Z) (axis : nat) :
  length (shape (bounds labels axis)) = length (shape labels).
Proof.
  unfold bounds, np_pad, pad_widths; cbn [shape].
  rewrite length_zip_with, bounds_unpadded_shape_length, comprehension_length. lia.
Qed.

(** Along [axis] the indicator has one entry per gap between neighbouring
    labels and one more at each end; the other axes keep their length. *)
Theorem bounds_shape (labels : ndarray Z) (axis n : nat) :
  shape labels !! axis = Some n →
  shape (bounds labels axis) = <[axis := n - 1 + 2]> (shape labels).
Proof.
  intros Hn. apply list_eq; intros k.
  destruct (shape labels !! k) as [nk|] eqn:Hk.
  - rewrite (bounds_shape_lookup _ _ _ _ Hk).
    destruct (decide (k = axis)) as [->|Hne].
    + rewrite list_lookup_insert_eq by by eapply lookup_lt_Some. congruence.
    + by rewrite list_lookup_insert_ne.
  - rewrite (lookup_ge_None_2 (shape (bounds labels axis))).
    + symmetry. apply lookup_ge_None_2. rewrite length_insert.
      by apply lookup_ge_None_1.
    + rewrite bounds_shape_length. by apply lookup_ge_None_1.
Qed.

Lemma bounds_shape_witness : shape (bounds labels_2x3 1) = [2; 4].
Proof. exact (bounds_shape labels_2x3 1 3 eq_refl). Defined.

Lemma clip_bound_le (n : nat) (b : option Z) (dflt : nat) :
  dflt ≤ n → clip_bound n b dflt ≤ n.
Proof. unfold clip_bound. destruct b as [z|]; [|done]. case_match; lia. Qed.

(** A slice stays within the axis it slices. *)
Lemma getitem_in_bounds {A} (a : ndarray A) (slices : list pyslice) (i : list nat) :
  length slices = length (shape a) →
  in_bounds (shape (getitem a slices)) i →
  in_bounds (shape a) (zip_with plus (zip_with slice_start slices (shape a)) i).
Proof.
  unfold in_bounds, getitem; cbn [shape]. intros Hlen Hi.
  assert (Hli := Hi). apply Forall2_length in Hli. rewrite length_zip_with in Hli.
  apply Forall2_same_length_lookup_2.
  { rewrite !length_zip_with. lia. }
  intros k x n Hx Hn.
  apply lookup_zip_with_Some in Hx as (st & c & -> & Hst & Hc).
  apply lookup_zip_with_Some in Hst as (sl & n' & -> & Hsl & Hn').
  rewrite Hn in Hn'. injection Hn' as <-.
  assert (c < slice_len sl n) as Hlt.
  { eapply (Forall2_lookup_lr _ _ _ k c) in Hi; [done..|].
    by rewrite lookup_zip_with, Hsl, Hn. }
  unfold slice_len in Hlt.
  pose proof (clip_bound_le n (stop sl) n (le_n _)). unfold slice_stop in Hlt. lia.
Qed.

(** An index inside the padded frame addresses the array that was padded. *)
Lemma np_pad_inside_in_bounds (s : list nat) (pad_width : list (nat * nat)) (i : list nat) :
  length i = length s → length pad_width = length s →
  inside_pad s pad_width i = true →
  in_bounds s (zip_with (λ c w, c - w.1) i pad_width).
Proof.
  intros Hi Hw Hin. apply Forall2_same_length_lookup_2.
  { rewrite length_zip_with. lia. }
  intros k x n Hx Hn.
  apply lookup_zip_with_Some in Hx as (c & w & -> & Hc & Hwk).
  unfold inside_pad in Hin.
  eapply (forallb_id_lookup_true _ k) in Hin.
  2:{ rewrite lookup_zip_with, Hc; simpl.
      rewrite (proj2 (lookup_zip_Some _ _ _ _ _) (conj Hn Hwk)). simpl. done. }
  simpl in Hin. apply andb_true_iff in Hin as [H1 H2].
  apply Nat.leb_le in H1. apply Nat.ltb_lt in H2. lia.
Qed.

(** An index at an end of the padded axis lies outside the padded frame. *)
Lemma np_pad_outside (s : list nat) (pad_width : list (nat * nat)) (i : list nat)
    (k c n : nat) (w : nat * nat) :
  i !! k = Some c → s !! k = Some n → pad_width !! k = Some w →
  c < w.1 ∨ w.1 + n ≤ c →
  inside_pad s pad_width i = false.
Proof.
  intros Hc Hn Hw Hout. unfold inside_pad.
  apply (forallb_id_lookup_false _ k).
  rewrite lookup_zip_with, Hc; simpl.
  rewrite (proj2 (lookup_zip_Some _ _ _ _ _) (conj Hn Hw)); simpl. f_equal.
  apply andb_false_iff. rewrite Nat.leb_gt, Nat.ltb_ge. lia.
Qed.

Lemma slices_shapes_agree (labels : ndarray Z) (axis : nat) :
  shape (getitem labels (slices_to_m1 (length (shape labels)) axis))
  = shape (getitem labels (slices_from_1 (length (shape labels)) axis)).
Proof.
  unfold getitem, slices_to_m1, slices_from_1; cbn [shape].
  apply list_eq; intros k. rewrite !lookup_zip_with, !list_lookup_fmap.
  destruct (seq 0 (length (shape labels)) !! k) as [a|]; [|done]; simpl.
  destruct (shape labels !! k) as [n|]; [|done]; simpl.
  case_decide; [done|]. by rewrite slice_len_to_m1, slice_len_from_1.
Qed.

Lemma bounds_item_at_edge (labels : ndarray Z) (axis : nat) (i : list nat) :
  at_domain_edge labels axis i → item (bounds labels axis) i = true.
Proof.
  intros (Hi & m & Hm & Hedge).
  assert (is_Some (shape labels !! axis)) as [n Hn].
  { apply lookup_lt_is_Some. rewrite <- bounds_shape_length with (axis := axis).
    by eapply lookup_lt_Some. }
  rewrite (bounds_shape_lookup _ _ _ _ Hn), decide_True in Hm by done.
  injection Hm as <-.
  assert (∃ c, i !! axis = Some c ∧ (c < 1 ∨ 1 + (n - 1) ≤ c)) as (c & Hc & Hout).
  { destruct Hedge as [->| ->]; eexists; (split; [done|]); lia. }
  unfold bounds, np_pad; cbn [item].
  rewrite (np_pad_outside _ _ _ axis c (n - 1) (1, 1)); try done.
  - rewrite (bounds_unpadded_shape_lookup _ _ _ _ Hn). by rewrite decide_True.
  - unfold pad_widths. rewrite comprehension_lookup by by eapply lookup_lt_Some.
    by rewrite decide_True.
Qed.

Lemma bounds_item_uniform (labels : ndarray Z) (axis : nat) (v : Z) (i : list nat) :
  uniform labels v →
  in_bounds (shape (bounds labels axis)) i →
  item (bounds labels axis) i = true.
Proof.
  intros Hv Hi. unfold bounds, np_pad; cbn [item].
  destruct (inside_pad _ _ _) eqn:Hin; [|done].
  apply np_pad_inside_in_bounds in Hin.
  - unfold bounds_unpadded, array_eq in *; cbn [item shape] in *.
    unfold getitem at 1 2; cbn [item].
    rewrite !Hv; [apply Z.eqb_refl|..].
    + apply getitem_in_bounds; [apply comprehension_length|].
      by rewrite slices_shapes_agree.
    + apply getitem_in_bounds; [apply comprehension_length|done].
  - apply Forall2_length in Hi. rewrite Hi, bounds_shape_length.
    by rewrite bounds_unpadded_shape_length.
  - unfold pad_widths. by rewrite comprehension_length, bounds_unpadded_shape_length.
Qed.

(** Away from the two padded ends, entry [c] of the indicator compares
    label [c] with label [c - 1] along [axis]. *)
Lemma bounds_item_interior (labels : ndarray Z) (axis : nat) (i : list nat) (c n : nat) :
  shape labels !! axis = Some n →
  in_bounds (shape (bounds labels axis)) i →
  i !! axis = Some c → 1 ≤ c → c ≤ n - 1 →
  item (bounds labels axis) i
  = Z.eqb (item labels i) (item labels (<[axis := c - 1]> i)).
Proof.
  intros Hn Hi Hc H1 H2.
  assert (length i = length (shape labels)) as Hlen.
  { apply Forall2_length in Hi. by rewrite Hi, bounds_shape_length. }
  assert (axis < length (shape labels)) as Hax by by eapply lookup_lt_Some.
  unfold bounds, np_pad; cbn [item].
  assert (inside_pad (shape (bounds_unpadded labels axis))
            (pad_widths (length (shape labels)) axis) i = true) as ->.
  { unfold inside_pad. apply forallb_id_all. intros k b Hb.
    apply lookup_zip_with_Some in Hb as (ck & [n' w] & -> & Hck & Hz).
    apply lookup_zip_Some in Hz as [Hn' Hw]. simpl.
    assert (k < length (shape labels)) as Hk.
    { rewrite <- Hlen. by eapply lookup_lt_Some. }
    destruct (lookup_lt_is_Some_2 (shape labels) k Hk) as [nk Hnk].
    rewrite (bounds_unpadded_shape_lookup _ _ _ _ Hnk) in Hn'.
    unfold pad_widths in Hw. rewrite comprehension_lookup in Hw by done.
    eapply Forall2_lookup_lr in Hi; [|done|by apply bounds_shape_lookup].
    apply andb_true_iff. rewrite Nat.leb_le, Nat.ltb_lt.
    destruct (decide (k = axis)); simplify_eq/=; lia. }
  unfold bounds_unpadded, array_eq, getitem; cbn [item shape]. f_equal; f_equal.
  - apply list_eq; intros k.
    rewrite !lookup_zip_with. unfold slices_from_1, pad_widths.
    rewrite !list_lookup_fmap.
    destruct (i !! k) as [ck|] eqn:Hck.
    2:{ by destruct (seq 0 _ !! k), (shape labels !! k). }
    assert (k < length (shape labels)) as Hk.
    { rewrite <- Hlen. by eapply lookup_lt_Some. }
    destruct (lookup_lt_is_Some_2 (shape labels) k Hk) as [nk Hnk].
    rewrite lookup_seq_lt, Hnk by done; simpl.
    destruct (decide (k = axis)); simplify_eq/=.
    + rewrite decide_False by naive_solver. f_equal.
      unfold slice_start, clip_bound; simpl. lia.
    + rewrite decide_True by done. f_equal.
      unfold slice_start, clip_bound; simpl. lia.
  - apply list_eq; intros k.
    rewrite !lookup_zip_with. unfold slices_to_m1, pad_widths.
    rewrite !list_lookup_fmap.
    destruct (decide (k = axis)) as [->|Hne].
    + rewrite list_lookup_insert_eq by lia.
      rewrite lookup_seq_lt, Hn, Hc by done; simpl.
      rewrite decide_False by naive_solver. rewrite decide_True by done. done.
    + rewrite list_lookup_insert_ne by done.
      destruct (i !! k) as [ck|] eqn:Hck.
      2:{ by destruct (seq 0 _ !! k), (shape labels !! k). }
      assert (k < length (shape labels)) as Hk.
      { rewrite <- Hlen. by eapply lookup_lt_Some. }
      destruct (lookup_lt_is_Some_2 (shape labels) k Hk) as [nk Hnk].
      rewrite lookup_seq_lt, Hnk by done; simpl.
      rewrite decide_True by done. rewrite decide_False by done. f_equal.
      unfold slice_start, clip_bound; simpl. lia.
Qed.

(** C3, as stated, fails.  On the uniform foreground mask [7, 7, 7] both
    end entries of the padded indicator hold the value that means "labels
    equal", not the value that means "is boundary"; the whole indicator
    holds no boundary entry, so nothing bounds the distance at the edge. *)
Lemma pad_value_is_boundary_counterexample :
  at_domain_edge labels_777 0 [0] ∧ at_domain_edge labels_777 0 [3] ∧
  is_boundary (item (bounds labels_777 0) [0]) = false ∧
  is_boundary (item (bounds labels_777 0) [3]) = false ∧
  Forall (λ i, is_boundary (item (bounds labels_777 0) i) = false)
         (indices (shape (bounds labels_777 0))).
Proof.
  split; [|split].
  - split; [solve_in_bounds|]. exists 4. split; [reflexivity|by left].
  - split; [solve_in_bounds|]. exists 4. split; [reflexivity|by right].
  - repeat split. repeat constructor.
Qed.

(** C3, amended.  Along every axis the indicator is padded on both ends
    with 1, the value an entry has where adjacent labels are equal, so the
    image border is not a boundary; between the ends, entry [c] compares
    label [c] with label [c - 1]; on a mask with a single label no entry
    of the padded indicator is a boundary. *)
Theorem bounds_padding_is_not_boundary (labels : ndarray Z) (axis : nat) :
  (∀ i, at_domain_edge labels axis i →
        item (bounds labels axis) i = true ∧
        is_boundary (item (bounds labels axis) i) = false) ∧
  (∀ i c n, shape labels !! axis = Some n →
            in_bounds (shape (bounds labels axis)) i →
            i !! axis = Some c → 1 ≤ c → c ≤ n - 1 →
            is_boundary (item (bounds labels axis) i)
            = negb (Z.eqb (item labels i) (item labels (<[axis := c - 1]> i)))) ∧
  (∀ v, uniform labels v →
        ∀ i, in_bounds (shape (bounds labels axis)) i →
             is_boundary (item (bounds labels axis) i) = false).
Proof.
  split; [|split].
  - intros i Hi. by rewrite (bounds_item_at_edge _ _ _ Hi).
  - intros i c n Hn Hi Hc H1 H2. unfold is_boundary.
    by rewrite (bounds_item_interior _ _ _ _ _ Hn Hi Hc H1 H2).
  - intros v Hv i Hi. by rewrite (bounds_item_uniform _ _ _ _ Hv Hi).
Qed.

Lemma labels_777_uniform : uniform labels_777 7.
Proof.
  intros i Hi. inversion Hi as [|c n i' s' Hc Hi']; subst.
  inversion Hi'; subst. by do 3 (destruct c as [|c]; [done|]); lia.
Qed.

(** The amended statement at work.  On the 2 x 3 mask, along the column
    axis, the end entries of row 1 are not boundaries and the two entries
    in between are (0 | 1 | 2); on the uniform mask [7, 7, 7] an entry in
    the middle is no boundary either. *)
Lemma bounds_padding_is_not_boundary_witness :
  is_boundary (item (bounds labels_2x3 1) [1; 0]) = false ∧
  is_boundary (item (bounds labels_2x3 1) [1; 3]) = false ∧
  is_boundary (item (bounds labels_2x3 1) [1; 1]) = true ∧
  is_boundary (item (bounds labels_2x3 1) [1; 2]) = true ∧
  is_boundary (item (bounds labels_777 0) [2]) = false.
Proof.
  destruct (bounds_padding_is_not_boundary labels_2x3 1) as (Hedge & Hmid & _).
  destruct (bounds_padding_is_not_boundary labels_777 0) as (_ & _ & Huni).
  split; [|split; [|split; [|split]]].
  - apply Hedge. split; [solve_in_bounds|]. exists 4. split; [reflexivity|by left].
  - apply Hedge. split; [solve_in_bounds|]. exists 4. split; [reflexivity|by right].
  - rewrite (Hmid [1; 1] 1 3); [reflexivity..|solve_in_bounds|reflexivity|lia|simpl; lia].
  - rewrite (Hmid [1; 2] 2 3); [reflexivity..|solve_in_bounds|reflexivity|lia|simpl; lia].
  - apply (Huni 7%Z labels_777_uniform). solve_in_bounds.
Defined.

End BoundsFacts.

(** ** The sampling grid and the shape of compute_sdt's result *)

Section ComputeSDTFacts.
Import SDT.

Lemma linspace_length (start stop : Q) (num : nat) :
  length (linspace start stop num) = num.
Proof.
  destruct num as [|[|num]]; [done..|]. unfold linspace.
  by rewrite length_fmap, length_seq.
Qed.

(** From 0.5 to [n - 0.5] in [n] points the step is exactly 1. *)
Lemma linspace_half_pixel (n k : nat) :
  k < n →
  (nth k (linspace (1 # 2) (inject_Z (Z.of_nat (n - 1 + 2)) - (3 # 2)) n) 0
   == inject_Z (Z.of_nat k) + (1 # 2))%Q.
Proof.
  intros Hk. destruct n as [|[|n]]; [lia| |].
  - assert (k = 0) as -> by lia. reflexivity.
  - unfold linspace.
    rewrite (nth_lookup_Some _ _ _ _ (comprehension_lookup _ _ _ Hk)).
    replace (S (S n) - 1 + 2) with (S n + 2) by lia.
    replace (S (S n) - 1) with (S n) by lia.
    rewrite Nat2Z.inj_add, inject_Z_plus.
    assert (¬ (inject_Z (Z.of_nat (S n)) == 0)%Q) as Hne.
    { unfold Qeq; simpl. lia. }
    field. exact Hne.
Qed.

(** The grid has one point per pixel of the mask, and along [axis] the
    points lie half-way between the entries of the indicator. *)
Lemma coordinates_shape (s s' : list nat) (axis : nat) :
  length s' = length s →
  (∀ a n, a ≠ axis → s !! a = Some n → s' !! a = Some n) →
  shape (coordinates s s' axis) = length s :: s.
Proof.
  intros Hlen Hoff. unfold coordinates, meshgrid_stack; cbn [shape].
  rewrite comprehension_length. f_equal.
  apply list_eq; intros a. rewrite !list_lookup_fmap.
  destruct (s !! a) as [n|] eqn:Hn.
  - rewrite lookup_seq_lt by by eapply lookup_lt_Some. simpl. f_equal.
    case_decide as Ha.
    + unfold range. rewrite length_fmap, length_seq.
      apply Hoff in Hn; [|done]. by rewrite (nth_lookup_Some _ _ _ _ Hn).
    + rewrite linspace_length. by rewrite (nth_lookup_Some _ _ _ _ Hn).
  - rewrite lookup_seq_ge by by apply lookup_ge_None_1. done.
Qed.

Context {F : Type} (finf : F) (fmin fdiv fmul : F → F → F) (ftanh : F → F).
Context (of_int : Z → F).
Context (edt_values : ndarray bool → list nat → F).
Context (map_coordinates_values : ndarray F → ndarray Q → list nat → F).

Local Abbreviation sampled := (SDT.sampled edt_values map_coordinates_values).

Lemma sampled_shape (labels : ndarray Z) (axis : nat) :
  shape (sampled labels axis) = shape labels.
Proof.
  unfold SDT.sampled, map_coordinates, distance_transform_edt; cbn [shape].
  rewrite coordinates_shape; [done|..].
  - apply bounds_shape_length.
  - intros a n Ha Hn. rewrite (bounds_shape_lookup _ _ _ _ Hn). by rewrite decide_False.
Qed.

Lemma min_over_axes_spec (labels : ndarray Z) (axes : list nat) :
  ∃ d, min_over_axes finf fmin edt_values map_coordinates_values labels axes
       = Return d ∧
       shape d = shape labels ∧
       ∀ i, item d i
            = min_distance finf fmin edt_values map_coordinates_values labels axes i.
Proof.
  unfold min_over_axes, min_distance.
  assert (∀ d0 : ndarray F, shape d0 = shape labels →
    ∃ d, foldl (λ acc axis, distances ← acc;
                  np_minimum fmin distances (sampled labels axis))
               (Return d0) axes = Return d ∧
         shape d = shape labels ∧
         ∀ i, item d i
              = foldl (λ acc axis, fmin acc (item (sampled labels axis) i))
                      (item d0 i) axes) as Hgen.
  { induction axes as [|axis axes IH]; intros d0 Hd0; simpl; [by exists d0|].
    unfold np_minimum at 2.
    rewrite decide_True by by rewrite Hd0, sampled_shape.
    destruct (IH (NdArray (shape d0)
                    (λ i, fmin (item d0 i) (item (sampled labels axis) i))) Hd0)
      as (d & Hd & Hshape & Hitem).
    exists d. by rewrite Hd. }
  destruct (Hgen (full (shape labels) finf) eq_refl) as (d & Hd & Hshape & Hitem).
  by exists d.
Qed.

(** Along [axis] the sampling points lie half-way between the entries of
    the indicator: pixel [c] is sampled at [c + 1/2]. *)
Theorem coordinates_half_pixel (labels : ndarray Z) (axis n c : nat) (i : list nat) :
  shape labels !! axis = Some n → i !! axis = Some c → c < n →
  (item (coordinates (shape labels) (shape (bounds labels axis)) axis) (axis :: i)
   == inject_Z (Z.of_nat c) + (1 # 2))%Q.
Proof.
  intros Hn Hc Hlt. unfold coordinates, meshgrid_stack; cbn [item].
  rewrite (nth_lookup_Some _ _ _ _ Hc).
  rewrite (nth_lookup_Some _ _ _ _
             (comprehension_lookup _ _ _ (lookup_lt_Some _ _ _ Hn))).
  rewrite decide_False by (intros Hne; by apply Hne).
  rewrite (nth_lookup_Some _ _ _ _ Hn).
  rewrite (nth_lookup_Some _ _ _ _ (bounds_shape_lookup _ _ _ _ Hn)).
  rewrite decide_True by done. by apply linspace_half_pixel.
Qed.

Lemma coordinates_half_pixel_witness :
  Qeq (item (coordinates (shape labels_2x3) (shape (bounds labels_2x3 1)) 1) [1; 0; 2])
      (5 # 2).
Proof.
  assert (2 < 3) as H by lia.
  exact (coordinates_half_pixel labels_2x3 1 3 2 [0; 2] eq_refl eq_refl H).
Defined.

(** For a mask of at least one dimension compute_sdt returns an array of
    the mask's shape; its element at [i] is the [tanh] of the minimum
    sampled distance over [scale], multiplied by -1 exactly where the
    label is 0. *)
Theorem compute_sdt_shape_and_flip (n : nat) (s : list nat) (values : list nat → Z)
    (scale : Z) :
  ∃ out, compute_sdt finf fmin fdiv fmul ftanh of_int edt_values
           map_coordinates_values (NdArray (n :: s) values) scale = Return out ∧
         shape out = n :: s ∧
         ∀ i, item out i
              = let t := ftanh (fdiv (min_distance finf fmin edt_values
                                        map_coordinates_values (NdArray (n :: s) values)
                                        (seq 0 (S (length s))) i)
                                     (of_int scale)) in
                if (values i =? 0)%Z then fmul t (of_int (-1)) else t.
Proof.
  unfold compute_sdt.
  destruct (min_over_axes_spec (NdArray (n :: s) values)
              (seq 0 (length (shape (NdArray (n :: s) values)))))
    as (d & -> & Hshape & Hitem).
  eexists. split; [done|]. split; [done|]. intros i. cbn [item]. by rewrite Hitem.
Qed.

End ComputeSDTFacts.

(** ** Positions of an array *)

Lemma elem_of_indices (s i : list nat) : i ∈ indices s ↔ in_bounds s i.
Proof.
  unfold in_bounds. revert i. induction s as [|n s IH]; intros i; simpl.
  - rewrite list_elem_of_singleton. split; [intros ->; constructor|by inversion 1].
  - rewrite list_elem_of_bind. split.
    + intros (c & Hi & Hc). apply list_elem_of_fmap in Hi as (i' & -> & Hi').
      apply elem_of_seq in Hc. constructor; [lia|by apply IH].
    + inversion 1 as [|c ? i' ? Hc Hi']; subst. exists c. split.
      * apply list_elem_of_fmap. exists i'. split; [done|by apply IH].
      * apply elem_of_seq. lia.
Qed.

Lemma NoDup_indices (s : list nat) : NoDup (indices s).
Proof.
  induction s as [|n s IH]; simpl; [apply NoDup_singleton|].
  apply NoDup_bind.
  - intros c1 c2 i _ _ H1 H2.
    apply list_elem_of_fmap in H1 as (i1 & -> & _).
    apply list_elem_of_fmap in H2 as (i2 & Heq & _). by injection Heq.
  - intros c _. apply NoDup_fmap_2; [|done]. by intros ?? [=].
  - apply NoDup_seq.
Qed.

(** ** Connected-region labelling *)

Lemma adjacent_sym (i j : list nat) : Maxima.adjacent i j = Maxima.adjacent j i.
Proof.
  unfold Maxima.adjacent. f_equal.
  - apply bool_decide_ext. split; congruence.
  - f_equal. revert j. induction i as [|c i IH]; intros [|d j]; simpl; try done.
    rewrite (IH j). lia.
Qed.

Section LabellingFacts.
Import Maxima.

Context (cand : list nat → bool) (universe : list (list nat)).

Local Abbreviation touches := (Maxima.touches cand universe).
Local Abbreviation connected := (Maxima.connected cand universe).
Local Abbreviation grow := (Maxima.grow cand universe).
Local Abbreviation region_of := (Maxima.region_of cand universe).
Local Abbreviation collect := (Maxima.collect cand universe).

Lemma touches_sym (a b : list nat) : touches a b → touches b a.
Proof.
  intros (Ha & Hb & Hca & Hcb & Hadj). repeat split; try done.
  by rewrite adjacent_sym.
Qed.

Lemma connected_trans (p q r : list nat) :
  connected p q → connected q r → connected p r.
Proof. apply rtc_trans. Qed.

Lemma connected_sym (p q : list nat) : connected p q → connected q p.
Proof.
  intros H. induction H as [p|p r q Hpr _ IH]; [apply rtc_refl|].
  eapply connected_trans; [exact IH|]. by apply rtc_once, touches_sym.
Qed.

Lemma grow_elem (R : list (list nat)) (q : list nat) :
  q ∈ grow R ↔
  q ∈ R ∨ (q ∈ universe ∧ cand q = true ∧ (q ∉ R) ∧ ∃ r, r ∈ R ∧ adjacent r q = true).
Proof.
  unfold Maxima.grow. rewrite elem_of_app, list_elem_of_filter, Exists_exists.
  split.
  - intros [?|((? & ? & ?) & ?)]; [by left|by right].
  - intros [?|(? & ? & ? & ?)]; [by left|by right].
Qed.

Lemma iter_grow_root (k : nat) (p : list nat) : p ∈ Nat.iter k grow [p].
Proof.
  induction k as [|k IH]; simpl; [apply list_elem_of_here|].
  apply grow_elem. by left.
Qed.

Lemma iter_grow_sound (k : nat) (p q : list nat) :
  p ∈ universe → cand p = true → q ∈ Nat.iter k grow [p] →
  q ∈ universe ∧ cand q = true ∧ connected p q.
Proof.
  intros Hp Hcp. revert q. induction k as [|k IH]; intros q; simpl.
  - rewrite list_elem_of_singleton. intros ->. repeat split; try done.
  - rewrite grow_elem. intros [Hq|(Hq & Hcq & _ & r & Hr & Hadj)]; [by apply IH|].
    destruct (IH r Hr) as (Hru & Hcr & Hconn). repeat split; try done.
    eapply connected_trans; [exact Hconn|]. apply rtc_once. by repeat split.
Qed.

Lemma iter_grow_NoDup (k : nat) (p : list nat) :
  NoDup universe → NoDup (Nat.iter k grow [p]).
Proof.
  intros HU. induction k as [|k IH]; simpl; [apply NoDup_singleton|].
  unfold Maxima.grow at 1. apply NoDup_app. split; [done|]. split.
  - intros x Hx. rewrite list_elem_of_filter. by intros ((_ & ? & _) & _).
  - by apply NoDup_filter.
Qed.

Lemma grow_fixed_closed (R : list (list nat)) (a b : list nat) :
  grow R = R → a ∈ R → touches a b → b ∈ R.
Proof.
  intros Hfix Ha (_ & Hb & _ & Hcb & Hadj).
  destruct (decide (b ∈ R)) as [|Hnot]; [done|].
  assert (b ∈ grow R) as Hin by (apply grow_elem; right; eauto 10).
  by rewrite Hfix in Hin.
Qed.

Lemma iter_grow_progress (k : nat) (p : list nat) :
  grow (Nat.iter k grow [p]) = Nat.iter k grow [p] ∨
  k + 1 ≤ length (Nat.iter k grow [p]).
Proof.
  induction k as [|k IH]; [right; simpl; lia|].
  destruct IH as [Hfix|Hlen]; [left; simpl; by rewrite !Hfix|].
  simpl. set (R := Nat.iter k grow [p]) in *.
  assert (∃ new, grow R = R ++ new) as [new Hnew] by by eexists.
  destruct new as [|x new].
  - left. rewrite app_nil_r in Hnew. by rewrite !Hnew.
  - right. rewrite Hnew, length_app. simpl. lia.
Qed.

Lemma region_of_fixed (p : list nat) :
  NoDup universe → p ∈ universe → cand p = true →
  grow (region_of p) = region_of p.
Proof.
  intros HU Hp Hcp. unfold Maxima.region_of.
  destruct (iter_grow_progress (length universe) p) as [|Hlen]; [done|].
  assert (Nat.iter (length universe) grow [p] ⊆+ universe) as Hsub.
  { apply NoDup_submseteq; [by apply iter_grow_NoDup|].
    intros q Hq. by apply (iter_grow_sound (length universe) p q). }
  apply submseteq_length in Hsub. lia.
Qed.

(** The region grown from a candidate is its connected component. *)
Lemma region_of_spec (p q : list nat) :
  NoDup universe → p ∈ universe → cand p = true →
  q ∈ region_of p ↔ connected p q.
Proof.
  intros HU Hp Hcp. split.
  - intros Hq. by apply (iter_grow_sound (length universe) p q).
  - intros Hconn.
    refine (rtc_ind_r (λ z, z ∈ region_of p) p _ _ q Hconn).
    + apply iter_grow_root.
    + intros a b _ Hab IH.
      eapply grow_fixed_closed; [by apply region_of_fixed|exact IH|done].
Qed.

End LabellingFacts.

(** Seed ids: the number of the first region holding a position. *)

Lemma seed_id_zero (regs : list (list (list nat))) (q : list nat) :
  Maxima.seed_id regs q = 0 ↔ Forall (λ r, q ∉ r) regs.
Proof.
  induction regs as [|r regs IH]; simpl; [by split; [constructor|]|].
  rewrite Forall_cons. case_decide as Hq.
  - split; [done|]. by intros [? _].
  - rewrite <- IH. destruct (Maxima.seed_id regs q); split; try done; by intros [_ ?].
Qed.

Lemma seed_id_le (regs : list (list (list nat))) (q : list nat) :
  Maxima.seed_id regs q ≤ length regs.
Proof.
  induction regs as [|r regs IH]; simpl; [done|].
  case_decide; [lia|]. destruct (Maxima.seed_id regs q); lia.
Qed.

Lemma seed_id_lookup (regs : list (list (list nat))) (q : list nat) (k : nat) :
  Maxima.seed_id regs q = S k → ∃ r, regs !! k = Some r ∧ q ∈ r.
Proof.
  revert k. induction regs as [|r regs IH]; intros k; simpl; [done|].
  case_decide as Hq.
  - intros [= <-]. by exists r.
  - destruct (Maxima.seed_id regs q) as [|k'] eqn:Hid; [done|].
    intros [= <-]. by apply IH.
Qed.

Lemma seed_id_elem (regs : list (list (list nat))) (q : list nat) (k : nat) r :
  regs !! k = Some r → q ∈ r → 1 ≤ Maxima.seed_id regs q ≤ S k.
Proof.
  revert k. induction regs as [|r' regs IH]; intros k Hk Hq; [done|]. simpl.
  case_decide as Hq'; [lia|].
  destruct k as [|k]; simpl in Hk; [by simplify_eq|].
  specialize (IH k Hk Hq). destruct (Maxima.seed_id regs q); lia.
Qed.

Lemma seed_id_app_old (regs : list (list (list nat))) r (q : list nat) :
  Maxima.seed_id regs q ≠ 0 →
  Maxima.seed_id (regs ++ [r]) q = Maxima.seed_id regs q.
Proof.
  induction regs as [|r' regs IH]; simpl; [done|].
  case_decide; [done|]. intros Hne.
  destruct (Maxima.seed_id regs q) eqn:Hid; [done|]. by rewrite IH.
Qed.

Lemma seed_id_app_new (regs : list (list (list nat))) r (q : list nat) :
  Maxima.seed_id regs q = 0 → q ∈ r →
  Maxima.seed_id (regs ++ [r]) q = S (length regs).
Proof.
  intros Hz Hq. induction regs as [|r' regs IH]; simpl in *.
  - by rewrite decide_True.
  - case_decide; [done|].
    destruct (Maxima.seed_id regs q) eqn:Hid; [|done]. by rewrite IH.
Qed.

Section CollectFacts.
Import Maxima.

Context (cand : list nat → bool) (universe : list (list nat)).

Local Abbreviation region_of := (Maxima.region_of cand universe).
Local Abbreviation collect := (Maxima.collect cand universe).
Local Abbreviation connected := (Maxima.connected cand universe).

Local Abbreviation rooted := (Maxima.rooted cand universe).

Lemma collect_spec (todo : list (list nat)) (regs : list (list (list nat))) :
  (∀ p, p ∈ todo → p ∈ universe) → Forall rooted regs → ids_used regs →
  Forall rooted (collect todo regs) ∧ ids_used (collect todo regs) ∧
  (∀ q, seed_id regs q ≠ 0 → seed_id (collect todo regs) q ≠ 0) ∧
  (∀ q, q ∈ todo → cand q = true → seed_id (collect todo regs) q ≠ 0).
Proof.
  revert regs. induction todo as [|p todo IH]; intros regs Hsub Hroot Hids; simpl.
  { repeat split; try done. by intros q ?%elem_of_nil. }
  assert (∀ q, q ∈ todo → q ∈ universe) as Hsub'.
  { intros q Hq. apply Hsub. by apply list_elem_of_further. }
  case_decide as Hnew.
  - destruct Hnew as [Hcp Hfresh]. apply seed_id_zero in Hfresh.
    assert (p ∈ region_of p) as Hpp by apply iter_grow_root.
    destruct (IH (regs ++ [region_of p])) as (IH1 & IH2 & IH3 & IH4); [done|..].
    { apply Forall_app. split; [done|]. apply Forall_singleton.
      exists p. split; [|done]. apply Hsub, list_elem_of_here. }
    { intros k Hk. rewrite length_app in Hk. simpl in Hk.
      destruct (decide (k = S (length regs))) as [->|].
      - exists p. by apply seed_id_app_new.
      - destruct (Hids k) as [q Hq]; [lia|]. exists q.
        rewrite seed_id_app_old; [done|lia]. }
    repeat split; try done.
    + intros q Hq. apply IH3. by rewrite seed_id_app_old.
    + intros q [->|Hq]%elem_of_cons Hcq; [|by apply IH4].
      apply IH3. by rewrite (seed_id_app_new _ _ _ Hfresh Hpp).
  - destruct (IH regs) as (IH1 & IH2 & IH3 & IH4); [done..|].
    repeat split; try done.
    intros q [->|Hq]%elem_of_cons Hcq; [|by apply IH4].
    apply IH3. rewrite seed_id_zero. intros Hall. by apply Hnew.
Qed.

(** The labelling of all candidates of the array. *)
Lemma labelling_spec :
  NoDup universe →
  let regs := collect universe [] in
  (∀ q, seed_id regs q ≠ 0 ↔ q ∈ universe ∧ cand q = true) ∧
  (∀ q, seed_id regs q ≤ length regs) ∧
  (∀ k, 1 ≤ k ≤ length regs → ∃ q, q ∈ universe ∧ seed_id regs q = k) ∧
  (∀ p q, p ∈ universe → cand p = true → q ∈ universe → cand q = true →
          seed_id regs p = seed_id regs q ↔ connected p q).
Proof.
  intros HU regs.
  destruct (collect_spec universe []) as (Hroot & Hids & _ & Hcover);
    [done|constructor|intros k; simpl; lia|]. fold regs in Hroot, Hids, Hcover.
  assert (∀ q k, seed_id regs q = S k →
            ∃ p, p ∈ universe ∧ cand p = true ∧
                 regs !! k = Some (region_of p) ∧ connected p q ∧
                 q ∈ universe ∧ cand q = true) as Hin.
  { intros q k (r & Hr & Hq)%seed_id_lookup.
    destruct (proj1 (Forall_lookup _ _) Hroot k r Hr) as (p & Hp & Hcp & ->).
    destruct (iter_grow_sound cand universe (length universe) p q Hp Hcp Hq)
      as (? & ? & ?). by exists p. }
  assert (∀ q, seed_id regs q ≠ 0 ↔ q ∈ universe ∧ cand q = true) as Hnz.
  { intros q. split; [|intros []; by apply Hcover].
    destruct (seed_id regs q) as [|k] eqn:Hid; [done|]. intros _.
    by destruct (Hin q k Hid) as (p & _ & _ & _ & _ & ? & ?). }
  assert (∀ p q, p ∈ universe → cand p = true → connected p q →
                 seed_id regs q ≤ seed_id regs p) as Hle.
  { intros p q Hp Hcp Hpq.
    destruct (seed_id regs p) as [|k] eqn:Hid; [by apply Hnz in Hid|].
    destruct (Hin p k Hid) as (r & Hr & Hcr & Hk & Hrp & _).
    apply (seed_id_elem regs q k _ Hk).
    apply region_of_spec; [done..|]. by eapply connected_trans. }
  split; [done|]. split; [apply seed_id_le|]. split.
  - intros k Hk. destruct (Hids k Hk) as [q Hq]. exists q. split; [|done].
    apply Hnz. lia.
  - intros p q Hp Hcp Hq Hcq. split.
    + intros Heq. destruct (seed_id regs p) as [|k] eqn:Hid; [by apply Hnz in Hid|].
      destruct (seed_id_lookup _ _ _ Hid) as (rp & Hk & Hprp).
      destruct (seed_id_lookup _ _ _ (eq_sym Heq)) as (rq & Hk' & Hqrq).
      rewrite Hk in Hk'. injection Hk' as <-.
      destruct (proj1 (Forall_lookup _ _) Hroot k rp Hk) as (r & Hr & Hcr & ->).
      apply (region_of_spec cand universe r) in Hprp, Hqrq; try done.
      eapply connected_trans; [apply connected_sym; exact Hprp|exact Hqrq].
    + intros Hpq. apply Nat.le_antisymm; [|by apply Hle].
      apply Hle; [done..|]. by apply connected_sym.
Qed.

End CollectFacts.

(** ** find_local_maxima on two unit impulses *)

Section ImpulseFacts.
Import Maxima.

Lemma in_window_refl (d : nat) (i : list nat) : 1 ≤ d → in_window d i i = true.
Proof.
  intros Hd. unfold in_window. rewrite bool_decide_eq_true_2 by done. cbn [andb].
  apply forallb_id_all. intros k b (c & c' & -> & Hc & Hc')%lookup_zip_with_Some.
  rewrite Hc in Hc'. injection Hc' as <-.
  apply andb_true_iff. rewrite Nat.leb_le, Nat.ltb_lt.
  assert (d / 2 < d) by (apply Nat.div_lt; lia). lia.
Qed.

(** The maximum of a list of zeros and ones. *)
Lemma foldl_qmax_01 (xs : list Q) (acc : Q) :
  acc = 0%Q ∨ acc = 1%Q → Forall (λ v, v = 0%Q ∨ v = 1%Q) xs →
  (foldl qmax acc xs = 0%Q ∨ foldl qmax acc xs = 1%Q) ∧
  (foldl qmax acc xs = 1%Q ↔ acc = 1%Q ∨ 1%Q ∈ xs).
Proof.
  revert acc. induction xs as [|x xs IH]; intros acc Hacc Hxs; simpl.
  - split; [done|]. split; [by left|]. by intros [?|?%elem_of_nil].
  - apply Forall_cons in Hxs as [Hx Hxs].
    assert (qmax acc x = 0%Q ∨ qmax acc x = 1%Q) as Hm.
    { destruct Hacc as [-> | ->], Hx as [-> | ->]; by compute; auto. }
    assert (qmax acc x = 1%Q ↔ acc = 1%Q ∨ x = 1%Q) as Hq.
    { destruct Hacc as [-> | ->], Hx as [-> | ->]; compute; intuition discriminate. }
    destruct (IH _ Hm Hxs) as [IH1 IH2]. split; [done|].
    rewrite IH2, Hq, elem_of_cons. intuition congruence.
Qed.

Lemma maximum_filter_two_impulses (s p q : list nat) (d : nat) (i : list nat) :
  1 ≤ d → in_bounds s i →
  ∃ m, maximum_filter (two_impulses s p q) d i = Some m ∧
       (m = 0%Q ∨ m = 1%Q) ∧
       (m = 1%Q ↔ (in_bounds s p ∧ in_window d i p = true) ∨
                  (in_bounds s q ∧ in_window d i q = true)).
Proof.
  intros Hd Hi. unfold maximum_filter. cbn [shape two_impulses].
  set (f := item (two_impulses s p q)).
  set (W := filter (λ j, in_window d i j = true) (indices s)).
  assert (i ∈ W) as HiW.
  { apply list_elem_of_filter. split; [by apply in_window_refl|by apply elem_of_indices]. }
  assert (∀ v, v ∈ f <$> W → v = 0%Q ∨ v = 1%Q) as H01.
  { intros v (j & -> & _)%list_elem_of_fmap. unfold f; simpl. case_decide; auto. }
  assert (1%Q ∈ f <$> W ↔ (in_bounds s p ∧ in_window d i p = true) ∨
                          (in_bounds s q ∧ in_window d i q = true)) as H1.
  { rewrite list_elem_of_fmap. split.
    - intros (j & Hj & HjW). apply list_elem_of_filter in HjW as [Hw Hb].
      apply elem_of_indices in Hb. unfold f in Hj; simpl in Hj.
      case_decide as Hpq; [|done]. destruct Hpq as [-> | ->]; auto.
    - intros [[Hb Hw]|[Hb Hw]].
      + exists p. split; [unfold f; simpl; by rewrite decide_True by auto|].
        apply list_elem_of_filter. split; [done|by apply elem_of_indices].
      + exists q. split; [unfold f; simpl; by rewrite decide_True by auto|].
        apply list_elem_of_filter. split; [done|by apply elem_of_indices]. }
  destruct (f <$> W) as [|x xs] eqn:HW.
  { apply list_elem_of_fmap_2 with (f := f) in HiW. rewrite HW in HiW.
    by apply elem_of_nil in HiW. }
  exists (foldl qmax x xs). split; [done|].
  destruct (foldl_qmax_01 xs x) as [Hv Hone].
  { apply H01, list_elem_of_here. }
  { apply Forall_forall. intros v Hv. by apply H01, list_elem_of_further. }
  split; [done|]. rewrite Hone, <- H1, elem_of_cons. intuition congruence.
Qed.

(** On two unit impulses in a zero background the candidates are the two
    impulses and the zero positions whose window holds neither. *)
Lemma candidate_two_impulses (s p q : list nat) (d : nat) (i : list nat) :
  1 ≤ d → in_bounds s p → in_bounds s q → in_bounds s i →
  candidate (two_impulses s p q) d i = true ↔
  i = p ∨ i = q ∨ (in_window d i p = false ∧ in_window d i q = false).
Proof.
  intros Hd Hp Hq Hi. unfold candidate.
  destruct (maximum_filter_two_impulses s p q d i Hd Hi) as (m & -> & Hm & Hone).
  cbn [item two_impulses]. case_decide as Hpq.
  - assert (m = 1%Q) as ->; [|split; [tauto|done]].
    apply Hone. destruct Hpq as [-> | ->]; [left|right]; (split; [done|]);
      by apply in_window_refl.
  - split.
    + intros Hc. assert (m ≠ 1%Q) as Hne by (intros ->; done).
      right; right. rewrite Hone in Hne.
      split; apply not_true_is_false; intros Hw; apply Hne; auto.
    + intros [->|[->|[Hwp Hwq]]]; [tauto..|].
      destruct Hm as [->|Hm1]; [done|]. apply Hone in Hm1.
      destruct Hm1 as [[_ Hw]|[_ Hw]]; congruence.
Qed.

(** On this module's definition a zero plateau is a seed too.  Nine
    samples, unit impulses at positions 1 and 7 (6 apart, the minimum
    distance is 3): the zero plateau 3..5 lies outside both windows,
    equals its own local maximum and is a third seed. *)
Example field_1_7_has_three_regions :
  in_bounds [9] [1] ∧ in_bounds [9] [7] ∧ 3 ≤ 7 - 1 ∧
  item (seeds field_1_7 3) <$> indices [9] = [0; 1; 0; 2; 2; 2; 0; 3; 0]%Z ∧
  number_of_seeds field_1_7 3 = 3%Z ∧
  number_of_seeds field_1_7 3 ≠ 2%Z.
Proof.
  split; [solve_in_bounds|]. split; [solve_in_bounds|].
  split; [simpl; lia|]. split; [by vm_compute|]. split; by vm_compute.
Qed.

(** With a window of one sample every position is its own local maximum:
    the whole field is a single seed whatever the impulses. *)
Example two_impulses_window_1 :
  item (seeds (two_impulses [3] [0] [2]) 1) <$> indices [3] = [1; 1; 1]%Z ∧
  number_of_seeds (two_impulses [3] [0] [2]) 1 = 1%Z.
Proof. split; by vm_compute. Qed.

(** The [find_local_maxima] of this module returns a seed map of the
    field's shape and a count such that: a position carries a non-zero id exactly
    when it is a candidate of the array; ids lie between 0 and the count;
    every id from 1 to the count is carried by some position; two
    candidates carry the same id exactly when a chain of neighbouring
    candidates connects them (so the count is the number of connected
    candidate regions).  On two unit impulses in a zero background, for a
    window of at least one sample, the candidates are the two impulses and
    every zero position whose window holds neither impulse; both impulses
    are seeds, and the count is at least 1 (not 2 in general). *)
Theorem find_local_maxima_labels_regions (field : ndarray Q) (d : nat) :
  shape (seeds field d) = shape field ∧
  (∀ i, item (seeds field d) i ≠ 0%Z ↔
        in_bounds (shape field) i ∧ candidate field d i = true) ∧
  (∀ i, (0 ≤ item (seeds field d) i ≤ number_of_seeds field d)%Z) ∧
  (∀ k, (1 ≤ k ≤ number_of_seeds field d)%Z →
        ∃ i, in_bounds (shape field) i ∧ item (seeds field d) i = k) ∧
  (∀ i j, in_bounds (shape field) i → candidate field d i = true →
          in_bounds (shape field) j → candidate field d j = true →
          item (seeds field d) i = item (seeds field d) j ↔
          connected (candidate field d) (indices (shape field)) i j) ∧
  (∀ s p q, field = two_impulses s p q → 1 ≤ d →
            in_bounds s p → in_bounds s q →
            (∀ i, in_bounds s i →
                  candidate field d i = true ↔
                  i = p ∨ i = q ∨
                  (in_window d i p = false ∧ in_window d i q = false)) ∧
            (0 < item (seeds field d) p)%Z ∧ (0 < item (seeds field d) q)%Z ∧
            (1 ≤ number_of_seeds field d)%Z).
Proof.
  pose proof (labelling_spec (candidate field d) (indices (shape field))
                (NoDup_indices _)) as Hlab.
  cbv zeta in Hlab. destruct Hlab as (Hnz & Hle & Hused & Hconn).
  set (regs := collect _ _ _ _) in *.
  assert (∀ i, item (seeds field d) i = Z.of_nat (seed_id regs i)) as Hitem by done.
  assert (number_of_seeds field d = Z.of_nat (length regs)) as Hcount by done.
  assert (∀ i, item (seeds field d) i ≠ 0%Z ↔
               in_bounds (shape field) i ∧ candidate field d i = true) as Hnz'.
  { intros i. rewrite Hitem, <- elem_of_indices, <- Hnz. lia. }
  split; [done|]. split; [done|]. split.
  { intros i. rewrite Hitem, Hcount. specialize (Hle i). lia. }
  split.
  { intros k Hk. rewrite Hcount in Hk.
    destruct (Hused (Z.to_nat k)) as (i & Hi & Hid); [lia|].
    exists i. split; [by apply elem_of_indices|]. rewrite Hitem, Hid. lia. }
  split.
  { intros i j Hi Hci Hj Hcj.
    rewrite !Hitem, <- Hconn; [lia|try done; by apply elem_of_indices..]. }
  intros s p q -> Hd Hp Hq.
  assert (∀ i, in_bounds s i →
               candidate (two_impulses s p q) d i = true ↔
               i = p ∨ i = q ∨ (in_window d i p = false ∧ in_window d i q = false))
    as Hcand by (intros i Hi; by apply candidate_two_impulses).
  assert (item (seeds (two_impulses s p q) d) p ≠ 0%Z) as Hsp.
  { apply Hnz'. split; [done|]. apply Hcand; auto. }
  assert (item (seeds (two_impulses s p q) d) q ≠ 0%Z) as Hsq.
  { apply Hnz'. split; [done|]. apply Hcand; auto. }
  split; [done|].
  pose proof (Hle p) as Hlp. pose proof (Hle q) as Hlq.
  rewrite Hitem in Hsp, Hsq. rewrite !Hitem, Hcount. lia.
Qed.

(** The statement at work on the nine-sample field: sample 4 is a
    candidate because its window 3..5 holds neither impulse, sample 2 is
    not, and both impulses carry an id. *)
Lemma find_local_maxima_labels_regions_witness :
  candidate field_1_7 3 [4] = true ∧
  candidate field_1_7 3 [2] = false ∧
  Z.lt 0 (item (seeds field_1_7 3) [1]) ∧
  Z.lt 0 (item (seeds field_1_7 3) [7]).
Proof.
  assert (∀ c, c < 9 → in_bounds [9] [c]) as Hb.
  { intros c Hc. constructor 2; [exact Hc|constructor 1]. }
  assert (1 ≤ 3) as H3 by lia.
  assert (1 < 9) as H1 by lia. assert (7 < 9) as H7 by lia.
  assert (4 < 9) as H4 by lia. assert (2 < 9) as H2 by lia.
  destruct (find_local_maxima_labels_regions field_1_7 3)
    as (_ & _ & _ & _ & _ & H).
  destruct (H [9] [1] [7] eq_refl H3 (Hb 1 H1) (Hb 7 H7)) as (Hcand & Hp & Hq & _).
  split; [|split; [|split; [exact Hp|exact Hq]]].
  - apply (Hcand [4] (Hb 4 H4)). right; right. split; vm_compute; reflexivity.
  - apply not_true_is_false. intros Hc.
    apply (Hcand [2] (Hb 2 H2)) in Hc.
    destruct Hc as [Hc|[Hc|[Hc _]]]; [discriminate Hc..|].
    vm_compute in Hc. discriminate Hc.
Defined.

End ImpulseFacts.

(** ** The reference flood meets the watershed contract *)

Section FloodFacts.
Import Flood.

Context {V : Type} (vleb : V → V → bool).

Lemma lowest_elem (image : ndarray V) (front : list (list nat * Z)) x :
  lowest vleb image front = Some x → x ∈ front.
Proof.
  destruct front as [|y ys]; [done|]. simpl. intros [= <-].
  revert y. induction ys as [|z ys IH]; intros y; simpl; [apply list_elem_of_here|].
  destruct (vleb _ _).
  - pose proof (IH y) as [->|?]%elem_of_cons; [apply list_elem_of_here|].
    by do 2 apply list_elem_of_further.
  - apply list_elem_of_further, IH.
Qed.

Lemma frontier_elem (universe : list (list nat)) (mask : ndarray bool)
    (labels : list nat → Z) (p : list nat) (l : Z) :
  (p, l) ∈ frontier universe mask labels →
  p ∈ universe ∧ item mask p = true ∧
  ∃ q, q ∈ universe ∧ labels q ≠ 0%Z ∧ l = labels q.
Proof.
  unfold frontier. rewrite list_elem_of_omap. intros (p' & Hp' & Hsome).
  destruct (item mask p') eqn:Hm; simpl in Hsome; [|done].
  destruct (labels p' =? 0)%Z; [|done].
  destruct (filter _ universe) as [|q qs] eqn:Hf; [done|].
  injection Hsome as <- <-. split; [done|]. split; [done|].
  assert (q ∈ filter (λ q, Maxima.adjacent p' q = true ∧ labels q ≠ 0%Z) universe)
    as Hq by (rewrite Hf; apply list_elem_of_here).
  apply list_elem_of_filter in Hq as [[_ Hq] HqU]. by exists q.
Qed.

Lemma flood_invariant_init universe markers mask :
  flood_invariant universe markers mask (masked_markers markers mask).
Proof.
  intros i Hi. unfold masked_markers. split; [by intros ->|].
  destruct (item mask i) eqn:Hm; [|done]. intros _. by exists i.
Qed.

Lemma flood_invariant_step (image : ndarray V) universe markers mask labels :
  flood_invariant universe markers mask labels →
  flood_invariant universe markers mask (flood_step vleb image universe mask labels).
Proof.
  intros Hinv. unfold flood_step.
  destruct (lowest _ _ _) as [[p l]|] eqn:Hlow; [|done].
  apply lowest_elem, frontier_elem in Hlow as (Hp & Hmp & q & Hq & Hlq & ->).
  intros i Hi. case_decide as Hip; [subst i|by apply Hinv].
  split; [congruence|]. intros _. by apply (Hinv q Hq).
Qed.

Lemma flood_invariant_iter (image : ndarray V) universe markers mask (k : nat) :
  flood_invariant universe markers mask
    (Nat.iter k (flood_step vleb image universe mask) (masked_markers markers mask)).
Proof.
  induction k as [|k IH]; simpl; [apply flood_invariant_init|].
  by apply flood_invariant_step.
Qed.

Lemma flood_meets_contract : Watershed.watershed_contract (watershed vleb).
Proof.
  intros image markers mask Hm Hk. unfold watershed.
  rewrite decide_True by done. eexists. split; [done|]. split; [done|].
  cbn [item shape].
  pose proof (flood_invariant_iter image (indices (shape image)) markers mask
                (length (indices (shape image)))) as Hinv.
  split.
  - intros i Hi. by apply Hinv, elem_of_indices.
  - intros i Hi Hne. destruct (Hinv i) as [_ Hlab]; [by apply elem_of_indices|].
    destruct (Hlab Hne) as (j & Hj & ? & ?). exists j.
    split; [by apply elem_of_indices|done].
Qed.

Lemma find_local_maxima_Q_meets_contract :
  Watershed.find_local_maxima_contract find_local_maxima_Q.
Proof. by intros field d seeds n [= <- <-]. Qed.

End FloodFacts.

(** ** Sums in an integer dtype *)



(** Beyond the range the stored sum is not the sum: 1 + 2147483647 is
    stored in an [int32] array as -2147483648. *)
Example wrapped_int32_overflow :
  Dtype.wrapped 31 (1 + 2147483647) = (-2147483648)%Z.
Proof. reflexivity. Qed.

(** ** watershed_from_boundary_distance *)

Section GlueFacts.
Import Watershed.

Context {V : Type} (vmax vsub : V → V → V).
Context (find_local_maxima : ndarray V → Z → result (ndarray Z * Z)).
Context (watershed : ndarray V → ndarray Z → ndarray bool → result (ndarray Z)).

Local Abbreviation wfbd :=
  (watershed_from_boundary_distance vmax vsub find_local_maxima watershed).

Lemma wfbd_zero_seeds bd mask off msd seeds :
  find_local_maxima bd msd = Return (seeds, 0%Z) →
  wfbd bd mask off msd = Return (PyTuple (full (shape bd) 0%Z) off).
Proof. intros H. unfold watershed_from_boundary_distance. by rewrite H. Qed.

Lemma wfbd_some_seeds bd mask off msd seeds n :
  find_local_maxima bd msd = Return (seeds, n) → n ≠ 0%Z →
  wfbd bd mask off msd
  = (image ← terrain vmax vsub bd;
     segmentation ← watershed image (offset_seeds seeds off) mask;
     mret (PyArray segmentation)).
Proof.
  intros H Hn. unfold watershed_from_boundary_distance. rewrite H; simpl.
  by apply Z.eqb_neq in Hn as ->.
Qed.

Lemma wfbd_raises bd mask off msd e :
  find_local_maxima bd msd = Raise e → wfbd bd mask off msd = Raise e.
Proof. intros H. unfold watershed_from_boundary_distance. by rewrite H. Qed.


(** C5.  When [find_local_maxima] reports zero seeds, the function raises
    nothing and returns the pair of an all-zero array of the field's shape
    and the id offset it was given. *)
Theorem zero_seeds_return_zeros bd mask off msd seeds :
  find_local_maxima bd msd = Return (seeds, 0%Z) →
  ∃ seg, wfbd bd mask off msd = Return (PyTuple seg off) ∧
         shape seg = shape bd ∧
         ∀ i, item seg i = 0%Z.
Proof.
  intros H. exists (full (shape bd) 0%Z). split; [|done].
  by apply wfbd_zero_seeds with seeds.
Qed.

(** C10.  The two branches return values of different arity: with zero
    seeds the pair (all-zero array, id offset); with at least one seed,
    whenever a value is returned, the bare segmentation array and no
    offset.  A failure of [find_local_maxima] is passed on. *)
Theorem return_arity_differs bd mask off msd :
  match find_local_maxima bd msd with
  | Return (seeds, n) =>
      if (n =? 0)%Z then
        wfbd bd mask off msd = Return (PyTuple (full (shape bd) 0%Z) off)
      else
        (∃ seg, wfbd bd mask off msd = Return (PyArray seg)) ∨
        (∃ e, wfbd bd mask off msd = Raise e)
  | Raise e => wfbd bd mask off msd = Raise e
  end.
Proof.
  destruct (find_local_maxima bd msd) as [[seeds n]|e] eqn:H.
  - destruct (n =? 0)%Z eqn:Hn.
    + apply Z.eqb_eq in Hn as ->. by apply wfbd_zero_seeds with seeds.
    + apply Z.eqb_neq in Hn. rewrite (wfbd_some_seeds _ _ _ _ _ _ H Hn).
      destruct (terrain vmax vsub bd) as [image|e]; simpl; [|eauto].
      destruct (watershed image _ mask) as [seg|e]; simpl; eauto.
  - by apply wfbd_raises.
Qed.

Lemma terrain_nonempty bd :
  nonempty bd → ∃ image, terrain vmax vsub bd = Return image ∧ shape image = shape bd.
Proof.
  intros Hne. unfold terrain, amax, nonempty in *.
  destruct (indices (shape bd)) as [|i rest]; [done|]. simpl. by eexists.
Qed.

Lemma offset_seeds_nonzero seeds off i :
  item (offset_seeds seeds off) i ≠ 0%Z →
  item seeds i ≠ 0%Z ∧ item (offset_seeds seeds off) i = (item seeds i + off)%Z.
Proof.
  unfold offset_seeds; cbn [item]. destruct (item seeds i =? 0)%Z eqn:Hz.
  - by apply Z.eqb_eq in Hz as ->.
  - by apply Z.eqb_neq in Hz.
Qed.

(** With at least one seed the function returns what [watershed] makes of
    the terrain, the seeds shifted by the offset, and the mask. *)
Lemma wfbd_segmentation bd mask off msd seeds n :
  watershed_contract watershed →
  find_local_maxima_contract find_local_maxima →
  find_local_maxima bd msd = Return (seeds, n) → n ≠ 0%Z →
  shape mask = shape bd → nonempty bd →
  ∃ image seg,
    terrain vmax vsub bd = Return image ∧
    watershed image (offset_seeds seeds off) mask = Return seg ∧
    wfbd bd mask off msd = Return (PyArray seg) ∧
    shape seg = shape bd ∧
    (∀ i, in_bounds (shape bd) i → item mask i = false → item seg i = 0%Z) ∧
    (∀ i, in_bounds (shape bd) i → item seg i ≠ 0%Z →
          ∃ j, in_bounds (shape bd) j ∧ item mask j = true ∧ item seeds j ≠ 0%Z ∧
               item seg i = (item seeds j + off)%Z).
Proof.
  intros Hws Hflm Hfind Hn Hmask Hne.
  destruct (terrain_nonempty bd Hne) as (image & Himage & Hshape).
  destruct (Hws image (offset_seeds seeds off) mask)
    as (seg & Hseg & Hsegshape & Hout & Hlab).
  { cbn [shape offset_seeds]. rewrite Hshape. by eapply Hflm. }
  { by rewrite Hshape. }
  rewrite Hshape in *. exists image, seg. split; [done|]. split; [done|]. split.
  { rewrite (wfbd_some_seeds _ _ _ _ _ _ Hfind Hn), Himage; simpl. by rewrite Hseg. }
  split; [done|]. split; [done|].
  intros i Hi Hnz. destruct (Hlab i Hi Hnz) as (j & Hj & Hmj & Heq).
  rewrite <- Heq in Hnz. apply offset_seeds_nonzero in Hnz as [Hsj Hoff].
  exists j. by rewrite <- Heq.
Qed.

(** C6.  Whenever a segmentation is returned, every position where the
    inner mask is false holds 0 in it; with an inner mask that is false
    everywhere the segmentation is zero everywhere, whatever the field.
    Under the documented contract of [watershed], for a mask of the
    field's shape, a segmentation is returned whenever
    [find_local_maxima] returns (the field being non-empty unless no seed
    was found). *)
Theorem masked_out_is_background bd mask off msd seeds n :
  watershed_contract watershed →
  find_local_maxima_contract find_local_maxima →
  find_local_maxima bd msd = Return (seeds, n) →
  shape mask = shape bd → n = 0%Z ∨ nonempty bd →
  ∃ v, wfbd bd mask off msd = Return v ∧
       shape (segmentation_of v) = shape bd ∧
       (∀ i, in_bounds (shape bd) i → item mask i = false →
             item (segmentation_of v) i = 0%Z) ∧
       ((∀ j, in_bounds (shape bd) j → item mask j = false) →
        ∀ i, in_bounds (shape bd) i → item (segmentation_of v) i = 0%Z).
Proof.
  intros Hws Hflm Hfind Hmask Hdef.
  assert (∃ v, wfbd bd mask off msd = Return v ∧
               shape (segmentation_of v) = shape bd ∧
               ∀ i, in_bounds (shape bd) i → item mask i = false →
                    item (segmentation_of v) i = 0%Z) as (v & Hv & Hshape & Hzero).
  { destruct (decide (n = 0%Z)) as [->|Hn].
    - exists (PyTuple (full (shape bd) 0%Z) off).
      split; [by apply wfbd_zero_seeds with seeds|done].
    - destruct Hdef as [?|Hne]; [done|].
      destruct (wfbd_segmentation bd mask off msd seeds n)
        as (image & seg & _ & _ & Hret & Hshape & Hzero & _); try done.
      by exists (PyArray seg). }
  exists v. repeat split; try done. intros Hall i Hi. by apply Hzero, Hall.
Qed.



End GlueFacts.

(** In binary64 the terrain does not always order the pixels as the
    negated field does: subtracting 2^-60 and 2^-59 from the maximum 1
    rounds to 1 both times, so the terrain ties two pixels that the
    negated field keeps strictly apart. *)
Theorem terrain64_ties_distinct_values :
  (λ t, item t <$> indices [3]) <$> Binary64.terrain64 Binary64.field_small
  = Return [0%float; 1%float; 1%float] ∧
  item (Binary64.negated Binary64.field_small) <$> indices [3]
  = [(-1)%float; (-0x1p-60)%float; (-0x1p-59)%float] ∧
  PrimFloat.ltb (-0x1p-59)%float (-0x1p-60)%float = true.
Proof. repeat split. Qed.

(** ** The glue code on concrete arrays *)

Section GlueExamples.
Import Watershed Flood.

Lemma find_local_maxima_Q_empty :
  find_local_maxima_Q empty_field 3 = Return (Maxima.seeds empty_field 3, 0%Z).
Proof. reflexivity. Qed.

Lemma find_local_maxima_Q_field_1_7 :
  find_local_maxima_Q Maxima.field_1_7 3 = Return (Maxima.seeds Maxima.field_1_7 3, 3%Z).
Proof.
  unfold find_local_maxima_Q. apply (f_equal Return).
  apply injective_projections; [reflexivity|]. vm_compute. reflexivity.
Qed.

Lemma field_1_7_nonempty : nonempty Maxima.field_1_7.
Proof. unfold nonempty. simpl. discriminate. Qed.

(** C5 at work: the empty field has no seed, and the pair of an empty
    all-zero array and the offset 10 comes back. *)
Lemma zero_seeds_return_zeros_witness :
  ∃ seg, watershed_from_boundary_distance_Q empty_field empty_mask 10 3
         = Return (PyTuple seg 10%Z) ∧
         shape seg = shape empty_field ∧ ∀ i, item seg i = 0%Z.
Proof.
  exact (zero_seeds_return_zeros Maxima.qmax Qminus find_local_maxima_Q
           (watershed Qle_bool) empty_field empty_mask 10%Z 3%Z
           (Maxima.seeds empty_field 3) find_local_maxima_Q_empty).
Defined.

(** C6 at work on the nine-sample field with the mask that leaves out
    samples 0, 4 and 5. *)
Lemma masked_out_is_background_witness :
  ∃ v, watershed_from_boundary_distance_Q Maxima.field_1_7 mask_9 10 3 = Return v ∧
       shape (segmentation_of v) = shape Maxima.field_1_7 ∧
       (∀ i, in_bounds (shape Maxima.field_1_7) i → item mask_9 i = false →
             item (segmentation_of v) i = 0%Z) ∧
       ((∀ j, in_bounds (shape Maxima.field_1_7) j → item mask_9 j = false) →
        ∀ i, in_bounds (shape Maxima.field_1_7) i → item (segmentation_of v) i = 0%Z).
Proof.
  exact (masked_out_is_background Maxima.qmax Qminus find_local_maxima_Q
           (watershed Qle_bool) Maxima.field_1_7 mask_9 10%Z 3%Z
           (Maxima.seeds Maxima.field_1_7 3) 3%Z
           (flood_meets_contract Qle_bool) find_local_maxima_Q_meets_contract
           find_local_maxima_Q_field_1_7 eq_refl (or_intror field_1_7_nonempty)).
Defined.





(** C10 at work: the empty field comes back as a pair, which a caller
    expecting an array receives as a tuple; the nine-sample field comes
    back as a bare array of length 9, which a caller unpacking a pair
    cannot unpack. *)
Lemma return_arity_differs_witness :
  (∃ seg, watershed_from_boundary_distance_Q empty_field empty_mask 10 3
          = Return (PyTuple seg 10%Z) ∧ py_len (PyTuple seg 10%Z) = Some 2) ∧
  (∃ seg, watershed_from_boundary_distance_Q Maxima.field_1_7 mask_9 10 3
          = Return (PyArray seg) ∧ py_len (PyArray seg) = Some 9).
Proof.
  split.
  - pose proof (return_arity_differs Maxima.qmax Qminus find_local_maxima_Q
                  (watershed Qle_bool) empty_field empty_mask 10%Z 3%Z) as H.
    rewrite find_local_maxima_Q_empty in H.
    exists (full (shape empty_field) 0%Z). split; [exact H|reflexivity].
  - pose proof (return_arity_differs Maxima.qmax Qminus find_local_maxima_Q
                  (watershed Qle_bool) Maxima.field_1_7 mask_9 10%Z 3%Z) as H.
    rewrite find_local_maxima_Q_field_1_7 in H.
    destruct H as [[seg Hseg]|[e He]].
    + exists seg. split; [exact Hseg|].
      apply (f_equal (λ r, match r with Return v => py_len v | Raise _ => None end))
        in Hseg.
      vm_compute in Hseg. symmetry. exact Hseg.
    + exfalso. vm_compute in He. discriminate He.
Defined.

(** The segmentation computed for that input. *)
Example segmentation_field_1_7 :
  (λ v, item (segmentation_of v) <$> indices [9])
    <$> watershed_from_boundary_distance_Q Maxima.field_1_7 mask_9 10 3
  = Return [0; 11; 11; 12; 0; 0; 13; 13; 13]%Z.
Proof. vm_compute. reflexivity. Qed.

End GlueExamples.

(** ** compute_sdt and the instance ids *)

Section RelabelFacts.
Import SDT.

Context {F : Type} (finf : F) (fmin fdiv fmul : F → F → F) (ftanh : F → F).
Context (of_int : Z → F).
Context (edt_values : ndarray bool → list nat → F).
Context (map_coordinates_values : ndarray F → ndarray Q → list nat → F).

Lemma bounds_relabel (f : Z → Z) (labels : ndarray Z) (axis : nat) :
  (∀ x y, f x = f y → x = y) →
  bounds (relabel f labels) axis = bounds labels axis.
Proof.
  intros Hinj. unfold bounds, bounds_unpadded, np_pad, array_eq, getitem.
  cbn [shape item relabel]. f_equal.
  apply functional_extensionality; intros i.
  destruct (inside_pad _ _ i); [|done].
  match goal with
  | |- (f ?a =? f ?b)%Z = _ => destruct (Z.eqb_spec a b) as [Heq|Hne]
  end.
  - rewrite Heq. apply Z.eqb_refl.
  - apply Z.eqb_neq. intros H. by apply Hne, Hinj.
Qed.

Lemma min_over_axes_relabel (f : Z → Z) (labels : ndarray Z) (axes : list nat) :
  (∀ x y, f x = f y → x = y) →
  min_over_axes finf fmin edt_values map_coordinates_values (relabel f labels) axes
  = min_over_axes finf fmin edt_values map_coordinates_values labels axes.
Proof.
  intros Hinj. unfold min_over_axes. cbn [shape relabel].
  generalize (Return (full (shape labels) finf)).
  induction axes as [|axis axes IH]; intros acc; [done|].
  cbn [foldl]. unfold sampled at 2 4. rewrite (bounds_relabel f labels axis Hinj).
  apply IH.
Qed.

(** The ids of the instances do not matter to [compute_sdt]: renaming the
    labels one-to-one, with 0 staying 0, leaves the result as it is. *)
Theorem compute_sdt_relabel (f : Z → Z) (labels : ndarray Z) (scale : Z) :
  (∀ x y, f x = f y → x = y) → f 0%Z = 0%Z →
  compute_sdt finf fmin fdiv fmul ftanh of_int edt_values map_coordinates_values
    (relabel f labels) scale
  = compute_sdt finf fmin fdiv fmul ftanh of_int edt_values map_coordinates_values
      labels scale.
Proof.
  intros Hinj H0. unfold compute_sdt. cbn [shape relabel].
  rewrite (min_over_axes_relabel f labels _ Hinj).
  destruct (min_over_axes _ _ _ _ labels _) as [distances|e]; [|done].
  simpl. do 2 f_equal. apply functional_extensionality; intros i.
  destruct (Z.eqb_spec (item labels i) 0) as [->|Hne].
  - by rewrite H0.
  - destruct (Z.eqb_spec (f (item labels i)) 0) as [Hz|?]; [|done].
    rewrite <- H0 in Hz. by apply Hinj in Hz.
Qed.

End RelabelFacts.

(** Doubling the ids of the 2 x 3 mask; the float type and the scipy
    routines are stand-ins. *)
Lemma compute_sdt_relabel_witness :
  SDT.compute_sdt 0%Z Z.min Z.div Z.mul id id (λ _ _, 0%Z) (λ _ _ _, 0%Z)
    (relabel (Z.mul 2) SDT.labels_2x3) 5
  = SDT.compute_sdt 0%Z Z.min Z.div Z.mul id id (λ _ _, 0%Z) (λ _ _ _, 0%Z)
      SDT.labels_2x3 5.
Proof.
  assert (∀ x y : Z, (2 * x = 2 * y)%Z → x = y) as Hinj by (intros; lia).
  exact (compute_sdt_relabel 0%Z Z.min Z.div Z.mul id id (λ _ _, 0%Z) (λ _ _ _, 0%Z)
           (Z.mul 2) SDT.labels_2x3 5%Z Hinj eq_refl).
Defined.

(** Along an axis of length 0 or 1 the indicator consists of the two
    padded entries only: whatever the labels, no entry of it is a
    boundary. *)
Theorem bounds_short_axis_has_no_boundary (labels : ndarray Z) (axis n : nat)
    (i : list nat) :
  shape labels !! axis = Some n → n ≤ 1 →
  in_bounds (shape (SDT.bounds labels axis)) i →
  shape (SDT.bounds labels axis) !! axis = Some 2 ∧
  item (SDT.bounds labels axis) i = true ∧
  SDT.is_boundary (item (SDT.bounds labels axis) i) = false.
Proof.
  intros Hn Hle Hi.
  assert (shape (SDT.bounds labels axis) !! axis = Some 2) as Hm.
  { rewrite (bounds_shape_lookup _ _ _ _ Hn), decide_True by done. f_equal. lia. }
  assert (item (SDT.bounds labels axis) i = true) as Htrue.
  { apply bounds_item_at_edge. split; [done|]. exists 2. split; [done|].
    destruct (Forall2_lookup_r _ _ _ _ _ Hi Hm) as (c & Hc & Hlt).
    rewrite Hc. destruct c as [|[|c]]; [by left|by right|lia]. }
  by rewrite Htrue.
Qed.

Lemma bounds_short_axis_has_no_boundary_witness :
  shape (SDT.bounds labels_1x3 0) !! 0 = Some 2 ∧
  item (SDT.bounds labels_1x3 0) [1; 2] = true ∧
  SDT.is_boundary (item (SDT.bounds labels_1x3 0) [1; 2]) = false.
Proof.
  assert (1 ≤ 1) as H1 by lia.
  apply (bounds_short_axis_has_no_boundary labels_1x3 0 1 [1; 2] eq_refl H1).
  solve_in_bounds.
Defined.

(** ** Thresholding, and labels across invocations *)

Section PostprocessFacts.
Import Watershed Postprocess.

Context {V : Type} (vgt : V → V → bool) (vmax vsub : V → V → V).
Context (find_local_maxima : ndarray V → Z → result (ndarray Z * Z)).
Context (watershed : ndarray V → ndarray Z → ndarray bool → result (ndarray Z)).

Local Abbreviation wfbd :=
  (watershed_from_boundary_distance vmax vsub find_local_maxima watershed).

(** In the evaluation step every pixel whose prediction is not above the
    threshold is background, and every label is the id of a seed that
    lies above the threshold (the offset being 0). *)
Theorem below_threshold_is_background pred thresh seeds n :
  watershed_contract watershed →
  find_local_maxima_contract find_local_maxima →
  find_local_maxima pred 20%Z = Return (seeds, n) →
  n = 0%Z ∨ nonempty pred →
  ∃ v, pred_labels vgt vmax vsub find_local_maxima watershed pred thresh = Return v ∧
       shape (segmentation_of v) = shape pred ∧
       (∀ i, in_bounds (shape pred) i → vgt (item pred i) thresh = false →
             item (segmentation_of v) i = 0%Z) ∧
       (∀ i, in_bounds (shape pred) i → item (segmentation_of v) i ≠ 0%Z →
             vgt (item pred i) thresh = true ∧
             ∃ j, in_bounds (shape pred) j ∧ vgt (item pred j) thresh = true ∧
                  item seeds j = item (segmentation_of v) i).
Proof.
  intros Hws Hflm Hfind Hdef. unfold pred_labels.
  set (mask := get_inner_mask vgt pred thresh).
  destruct (decide (n = 0%Z)) as [->|Hn].
  - exists (PyTuple (full (shape pred) 0%Z) 0%Z).
    split; [by apply wfbd_zero_seeds with seeds|]. split; [done|]. split; [done|].
    intros i _ Hnz. by destruct Hnz.
  - destruct Hdef as [?|Hne]; [done|].
    destruct (wfbd_segmentation vmax vsub find_local_maxima watershed
                pred mask 0%Z 20%Z seeds n)
      as (image & seg & _ & _ & Hret & Hshape & Hzero & Hlab); try done.
    exists (PyArray seg). split; [done|]. split; [done|]. split; [exact Hzero|].
    intros i Hi Hnz. cbn [segmentation_of] in *. split.
    + destruct (vgt (item pred i) thresh) eqn:Hgt; [done|].
      destruct Hnz. by apply Hzero.
    + destruct (Hlab i Hi Hnz) as (j & Hj & Hmj & _ & Heq).
      exists j. split; [done|]. split; [exact Hmj|]. rewrite Heq. lia.
Qed.





End PostprocessFacts.

Section PostprocessExamples.
Import Watershed Flood Postprocess.

Lemma find_local_maxima_Q_field_1_7_wide :
  find_local_maxima_Q Maxima.field_1_7 20 = Return (Maxima.seeds Maxima.field_1_7 20, 2%Z).
Proof.
  unfold find_local_maxima_Q. apply (f_equal Return).
  apply injective_projections; [reflexivity|]. vm_compute. reflexivity.
Qed.

(** The nine-sample field thresholded at 1/2: the two impulses are the
    only pixels above the threshold. *)
Lemma below_threshold_is_background_witness :
  ∃ v, pred_labels Qgt_bool Maxima.qmax Qminus find_local_maxima_Q (watershed Qle_bool)
         Maxima.field_1_7 (1 # 2) = Return v ∧
       shape (segmentation_of v) = shape Maxima.field_1_7 ∧
       (∀ i, in_bounds (shape Maxima.field_1_7) i →
             Qgt_bool (item Maxima.field_1_7 i) (1 # 2) = false →
             item (segmentation_of v) i = 0%Z) ∧
       (∀ i, in_bounds (shape Maxima.field_1_7) i → item (segmentation_of v) i ≠ 0%Z →
             Qgt_bool (item Maxima.field_1_7 i) (1 # 2) = true ∧
             ∃ j, in_bounds (shape Maxima.field_1_7) j ∧
                  Qgt_bool (item Maxima.field_1_7 j) (1 # 2) = true ∧
                  item (Maxima.seeds Maxima.field_1_7 20) j = item (segmentation_of v) i).
Proof.
  exact (below_threshold_is_background Qgt_bool Maxima.qmax Qminus find_local_maxima_Q
           (watershed Qle_bool) Maxima.field_1_7 (1 # 2)
           (Maxima.seeds Maxima.field_1_7 20) 2%Z
           (flood_meets_contract Qle_bool) find_local_maxima_Q_meets_contract
           find_local_maxima_Q_field_1_7_wide (or_intror field_1_7_nonempty)).
Defined.

(** The labels computed for that input. *)
Example pred_labels_field_1_7 :
  (λ v, item (segmentation_of v) <$> indices [9])
    <$> pred_labels Qgt_bool Maxima.qmax Qminus find_local_maxima_Q (watershed Qle_bool)
          Maxima.field_1_7 (1 # 2)
  = Return [0; 1; 0; 0; 0; 0; 0; 2; 0]%Z.
Proof. vm_compute. reflexivity. Qed.


End PostprocessExamples.

(** ** Loading a dataset *)

Section LoaderFacts.
Import Loader.

Context {A T R : Type}.
Context (listdir : string → outcome (list string)).
Context (imread : string → outcome A) (from_numpy : A → outcome T) (py_None : T).
Context (mask_suffix : string) (inp_transforms : T → outcome T).

Local Abbreviation load_img := (Loader.load_img imread from_numpy inp_transforms).
Local Abbreviation load_mask := (Loader.load_mask imread from_numpy mask_suffix).
Local Abbreviation load_sample :=
  (Loader.load_sample imread from_numpy mask_suffix inp_transforms).
Local Abbreviation loaded_prefix :=
  (Loader.loaded_prefix imread from_numpy py_None mask_suffix inp_transforms).
Local Abbreviation init :=
  (Loader.init (R:=R) listdir imread from_numpy py_None mask_suffix inp_transforms).

(** The two lists after [k] rounds of the loading loop. *)
Local Abbreviation rounds root n k :=
  (foldl (λ acc sample_ind, lists ← acc; load_sample root lists sample_ind)
         (Value (replicate n py_None, replicate n py_None)) (seq 0 k)).

Lemma rounds_S root n k :
  rounds root n (S k) = (lists ← rounds root n k; load_sample root lists k).
Proof. by rewrite seq_S, foldl_app. Qed.

Lemma list_setitem_value {X} (l : list X) i x :
  i < length l → list_setitem l i x = Value (<[i := x]> l).
Proof. intros. unfold list_setitem. by rewrite decide_True. Qed.

Lemma loaded_prefix_0 root n :
  loaded_prefix root n 0 (replicate n py_None, replicate n py_None).
Proof.
  split; [apply length_replicate|]. split; [apply length_replicate|].
  split; [intros; lia|]. intros i _ Hi. cbn [fst snd].
  by rewrite !lookup_replicate.
Qed.

Lemma load_sample_value root n k lists x m :
  loaded_prefix root n k lists → k < n →
  load_img root k = Value x → load_mask root k = Value m →
  load_sample root lists k = Value (<[k := x]> lists.1, <[k := m]> lists.2) ∧
  loaded_prefix root n (S k) (<[k := x]> lists.1, <[k := m]> lists.2).
Proof.
  intros (Hl1 & Hl2 & Hdone & Hrest) Hk Hx Hm. split.
  - unfold Loader.load_sample. rewrite Hx; simpl.
    rewrite list_setitem_value by lia; simpl. rewrite Hm; simpl.
    by rewrite list_setitem_value by lia.
  - unfold Loader.loaded_prefix. cbn [fst snd].
    split; [by rewrite length_insert|]. split; [by rewrite length_insert|]. split.
    + intros i Hi. destruct (decide (i = k)) as [->|Hne].
      * exists x, m. by rewrite !list_lookup_insert_eq by lia.
      * destruct (Hdone i) as (x' & m' & ? & ? & ? & ?); [lia|].
        exists x', m'. by rewrite !list_lookup_insert_ne by done.
    + intros i Hi Hn. rewrite !list_lookup_insert_ne by lia. apply Hrest; lia.
Qed.

(** The outcome of [k] rounds: the lists filled up to [k], or the
    exception of the first load that fails. *)
Lemma rounds_outcome root n k :
  k ≤ n →
  match rounds root n k with
  | Value lists => loaded_prefix root n k lists
  | Exception e =>
      ∃ i, i < k ∧
        (∀ j, j < i → ∃ x m, load_img root j = Value x ∧ load_mask root j = Value m) ∧
        (load_img root i = Exception e ∨
         (∃ x, load_img root i = Value x) ∧ load_mask root i = Exception e)
  end.
Proof.
  induction k as [|k IH]; intros Hk.
  - apply loaded_prefix_0.
  - rewrite rounds_S. specialize (IH ltac:(lia)).
    destruct (rounds root n k) as [lists|e]; simpl.
    + destruct (load_img root k) as [x|e] eqn:Hx.
      * destruct (load_mask root k) as [m|e] eqn:Hm.
        -- by destruct (load_sample_value root n k lists x m IH ltac:(lia) Hx Hm)
             as [-> ?].
        -- unfold Loader.load_sample. rewrite Hx; simpl.
           destruct IH as (Hl1 & Hl2 & Hdone & _).
           rewrite list_setitem_value by lia; simpl. rewrite Hm; simpl.
           exists k. split; [lia|]. split.
           ++ intros j Hj. destruct (Hdone j Hj) as (x' & m' & ? & ? & _). eauto.
           ++ right. eauto.
      * unfold Loader.load_sample. rewrite Hx; simpl.
        destruct IH as (_ & _ & Hdone & _).
        exists k. split; [lia|]. split; [|by left].
        intros j Hj. destruct (Hdone j Hj) as (x' & m' & ? & ? & _). eauto.
    + destruct IH as (i & Hi & ? & ?). exists i. split; [lia|done].
Qed.

(** What a dataset that the constructor returns holds. *)
Lemma init_value_inv root tr itr rm ds :
  init root tr itr rm = Value ds →
  ∃ entries,
    listdir root = Value entries ∧
    root_dir ds = root ∧ num_samples ds = length entries / 3 ∧
    return_mask ds = rm ∧ transform ds = tr ∧ img_transform ds = itr ∧
    loaded_prefix root (num_samples ds) (num_samples ds)
                  (loaded_imgs ds, loaded_masks ds).
Proof.
  unfold Loader.init, Loader.load_samples.
  destruct (listdir root) as [entries|e]; cbn [mbind outcome_bind]; [|done].
  pose proof (rounds_outcome root (length entries / 3) (length entries / 3)
                ltac:(done)) as Hout.
  destruct (rounds root (length entries / 3) (length entries / 3))
    as [[imgs masks]|e]; cbn [mbind outcome_bind mret outcome_ret]; [|done].
  intros [= <-].
  cbn [root_dir num_samples return_mask transform img_transform
       loaded_imgs loaded_masks fst snd].
  by exists entries.
Qed.

(** The constructor returns a dataset exactly when the directory can be
    listed and, for every sample index below a third of the number of
    entries, the image file and the mask file can be read, converted and
    (the image) transformed.  The dataset then has that many samples and
    holds, at each index, what was loaded for that index; no slot is left
    at [None]. *)
Theorem init_loads_every_sample root tr itr rm ds :
  init root tr itr rm = Value ds ↔
  ∃ entries,
    listdir root = Value entries ∧
    root_dir ds = root ∧ num_samples ds = length entries / 3 ∧
    return_mask ds = rm ∧ transform ds = tr ∧ img_transform ds = itr ∧
    length (loaded_imgs ds) = num_samples ds ∧
    length (loaded_masks ds) = num_samples ds ∧
    ∀ i, i < num_samples ds →
         ∃ x m, load_img root i = Value x ∧ load_mask root i = Value m ∧
                loaded_imgs ds !! i = Some x ∧ loaded_masks ds !! i = Some m.
Proof.
  split.
  - intros Hinit.
    destruct (init_value_inv _ _ _ _ _ Hinit)
      as (entries & ? & ? & ? & ? & ? & ? & Hl1 & Hl2 & Hdone & _).
    by exists entries.
  - intros (entries & Hdir & Hroot & Hn & Hrm & Htr & Hitr & Hl1 & Hl2 & Hall).
    unfold Loader.init, Loader.load_samples. rewrite Hdir.
    cbn [mbind outcome_bind]. rewrite Hn in *.
    pose proof (rounds_outcome root (length entries / 3) (length entries / 3)
                  ltac:(done)) as Hout.
    destruct (rounds root (length entries / 3) (length entries / 3))
      as [lists|e]; cbn [mbind outcome_bind mret outcome_ret].
    + destruct Hout as (Hl1' & Hl2' & Hdone & _).
      destruct ds as [root' n' rm' tr' itr' imgs masks]; cbn in *. subst.
      do 2 f_equal.
      * apply list_eq_same_length with (length entries / 3); [done..|].
        intros i x y Hi Hx Hy.
        destruct (Hall i Hi) as (x1 & m1 & Hx1 & _ & Hi1 & _).
        destruct (Hdone i Hi) as (x2 & m2 & Hx2 & _ & Hi2 & _). congruence.
      * apply list_eq_same_length with (length entries / 3); [done..|].
        intros i x y Hi Hx Hy.
        destruct (Hall i Hi) as (x1 & m1 & _ & Hm1 & _ & Hi1).
        destruct (Hdone i Hi) as (x2 & m2 & _ & Hm2 & _ & Hi2). congruence.
    + destruct Hout as (i & Hi & _ & Hfail).
      destruct (Hall i Hi) as (x & m & Hx & Hm & _).
      destruct Hfail as [?|[_ ?]]; congruence.
Qed.

(** The constructor raises exactly the exception of the first step that
    fails: listing the directory, or, going through the samples in order,
    loading the image and then the mask of a sample. *)
Theorem init_raises_first_failure root tr itr rm e :
  init root tr itr rm = Exception e ↔
  listdir root = Exception e ∨
  ∃ entries i,
    listdir root = Value entries ∧ i < length entries / 3 ∧
    (∀ j, j < i → ∃ x m, load_img root j = Value x ∧ load_mask root j = Value m) ∧
    (load_img root i = Exception e ∨
     (∃ x, load_img root i = Value x) ∧ load_mask root i = Exception e).
Proof.
  unfold Loader.init, Loader.load_samples.
  destruct (listdir root) as [entries|e'] eqn:Hdir; cbn [mbind outcome_bind].
  - pose proof (rounds_outcome root (length entries / 3) (length entries / 3)
                  ltac:(done)) as Hout.
    destruct (rounds root (length entries / 3) (length entries / 3))
      as [lists|e'']; cbn [mbind outcome_bind mret outcome_ret].
    + split; [done|]. intros [?|(entries' & i & [= <-] & Hi & _ & Hfail)]; [done|].
      destruct Hout as (_ & _ & Hdone & _).
      destruct (Hdone i Hi) as (x & m & Hx & Hm & _).
      destruct Hfail as [?|[_ ?]]; congruence.
    + split.
      * intros [= ->]. right. destruct Hout as (i & ?). by exists entries, i.
      * intros [?|(entries' & i & [= <-] & Hi & Hbefore & Hfail)]; [done|].
        destruct Hout as (i' & Hi' & Hbefore' & Hfail'). f_equal.
        destruct (Nat.lt_trichotomy i i') as [Hlt|[->|Hgt]].
        -- destruct (Hbefore' i Hlt) as (x & m & Hx & Hm).
           destruct Hfail as [?|[_ ?]]; congruence.
        -- destruct Hfail as [?|[[x ?] ?]], Hfail' as [?|[[x' ?] ?]]; congruence.
        -- destruct (Hbefore i' Hgt) as (x & m & Hx & Hm).
           destruct Hfail' as [?|[_ ?]]; congruence.
  - split; [intros [= ->]; by left|].
    intros [[= ->]|(entries & i & ? & _)]; [done|congruence].
Qed.

End LoaderFacts.

(** ** Indexing a Python list *)

Section IndexFacts.
Import Loader.

Context {X : Type}.

Lemma list_getitem_nonneg (l : list X) i x :
  l !! i = Some x → list_getitem l (Z.of_nat i) = Value x.
Proof.
  intros Hi. unfold list_getitem.
  assert ((Z.of_nat i <? 0)%Z = false) as Hlt by (apply Z.ltb_ge; lia).
  rewrite Hlt. cbv zeta. rewrite Hlt. by rewrite Nat2Z.id, Hi.
Qed.

Lemma list_getitem_from_end (l : list X) n i :
  length l = n → i < n →
  list_getitem l (Z.of_nat i - Z.of_nat n) = list_getitem l (Z.of_nat i).
Proof.
  intros <- Hi. unfold list_getitem.
  assert ((Z.of_nat i <? 0)%Z = false) as Hlt by (apply Z.ltb_ge; lia).
  assert ((Z.of_nat i - Z.of_nat (length l) <? 0)%Z = true) as Hlt'
    by (apply Z.ltb_lt; lia).
  rewrite Hlt, Hlt'. cbv zeta.
  by replace (Z.of_nat i - Z.of_nat (length l) + Z.of_nat (length l))%Z
    with (Z.of_nat i) by lia.
Qed.

Lemma list_getitem_out_of_range (l : list X) idx :
  (idx < - Z.of_nat (length l) ∨ Z.of_nat (length l) ≤ idx)%Z →
  list_getitem l idx = Exception IndexError.
Proof.
  intros Hidx. unfold list_getitem.
  destruct (Z.ltb_spec idx 0) as [Hneg|Hpos]; cbv zeta.
  - by assert ((idx + Z.of_nat (length l) <? 0)%Z = true) as ->
      by (apply Z.ltb_lt; lia).
  - assert ((idx <? 0)%Z = false) as -> by (apply Z.ltb_ge; lia).
    rewrite lookup_ge_None_2; [done|lia].
Qed.

(** An index between [-n] and [n - 1] names a position from the front or
    from the end. *)
Lemma index_in_range (n : nat) (idx : Z) :
  (- Z.of_nat n ≤ idx < Z.of_nat n)%Z →
  ∃ i, i < n ∧ (idx = Z.of_nat i ∨ idx = (Z.of_nat i - Z.of_nat n)%Z).
Proof.
  intros Hidx. destruct (Z.ltb_spec idx 0).
  - exists (Z.to_nat (idx + Z.of_nat n)). lia.
  - exists (Z.to_nat idx). lia.
Qed.

End IndexFacts.

(** ** Fetching a sample of the affinity dataset *)

Section AffinityFacts.
Import Loader AffinityDataset.

Context {A T R : Type}.
Context (listdir : string → outcome (list string)).
Context (imread : string → outcome A) (from_numpy : A → outcome T) (py_None : T).
Context (normalize : T → outcome T) (seeded : Z → R).
Context (np_asarray : T → outcome A).
Context (compute_affinities : A → list (list Z) → outcome A).
Context (to_float : T → outcome T).

Local Abbreviation load_img :=
  (Loader.load_img imread from_numpy (AffinityDataset.inp_transforms normalize)).
Local Abbreviation load_mask := (Loader.load_mask imread from_numpy "_cyto_masks.tif").
Local Abbreviation __init__ :=
  (AffinityDataset.__init__ (R:=R) listdir imread from_numpy py_None normalize).
Local Abbreviation __getitem__ :=
  (AffinityDataset.__getitem__ from_numpy seeded np_asarray compute_affinities to_float).
Local Abbreviation create_aff_target :=
  (AffinityDataset.create_aff_target from_numpy np_asarray compute_affinities to_float).

Lemma init_slots root tr itr rm ds i :
  __init__ root tr itr rm = Value ds → i < __len__ ds →
  length (loaded_imgs ds) = __len__ ds ∧ length (loaded_masks ds) = __len__ ds ∧
  transform ds = tr ∧ img_transform ds = itr ∧ return_mask ds = rm ∧
  ∃ x m, load_img root i = Value x ∧ load_mask root i = Value m ∧
         list_getitem (loaded_imgs ds) (Z.of_nat i) = Value x ∧
         list_getitem (loaded_masks ds) (Z.of_nat i) = Value m.
Proof.
  intros Hinit Hi. unfold AffinityDataset.__init__ in Hinit.
  apply init_value_inv in Hinit
    as (entries & _ & _ & _ & ? & ? & ? & ? & ? & Hall & _).
  unfold AffinityDataset.__len__ in *.
  destruct (Hall i Hi) as (x & m & ? & ? & ? & ?).
  repeat (split; [done|]). exists x, m. auto using list_getitem_nonneg.
Qed.

Lemma getitem_from_end root tr itr rm ds i fresh st :
  __init__ root tr itr rm = Value ds → i < __len__ ds →
  __getitem__ ds (Z.of_nat i - Z.of_nat (__len__ ds)) fresh st
  = __getitem__ ds (Z.of_nat i) fresh st.
Proof.
  intros Hinit Hi.
  destruct (init_slots root tr itr rm ds i Hinit Hi) as (Hl1 & Hl2 & _).
  unfold AffinityDataset.__getitem__.
  by rewrite (list_getitem_from_end _ _ _ Hl1 Hi),
             (list_getitem_from_end _ _ _ Hl2 Hi).
Qed.

(** Construction followed by a fetch: index [i] below the length, and
    likewise [i - len] counting from the end, fetches what was loaded from
    the files of sample [i]; without transforms the sample is the loaded
    image with the affinities of the loaded mask (and the mask itself
    when [return_mask] is set), and the generator is left alone. *)
Theorem getitem_returns_loaded_sample root tr itr rm ds i :
  __init__ root tr itr rm = Value ds → i < __len__ ds →
  ∃ x m,
    load_img root i = Value x ∧ load_mask root i = Value m ∧
    (∀ fresh st,
       __getitem__ ds (Z.of_nat i - Z.of_nat (__len__ ds)) fresh st
       = __getitem__ ds (Z.of_nat i) fresh st) ∧
    (tr = None → itr = None →
     ∀ fresh st,
       __getitem__ ds (Z.of_nat i) fresh st
       = (aff_mask ← create_aff_target m;
          mret (if rm then Triple x m aff_mask else Pair x aff_mask),
          st)).
Proof.
  intros Hinit Hi.
  destruct (init_slots root tr itr rm ds i Hinit Hi)
    as (Hl1 & Hl2 & Htr & Hitr & Hrm & x & m & Hx & Hm & Hgx & Hgm).
  exists x, m. split; [done|]. split; [done|]. split.
  - intros fresh st. by apply getitem_from_end with root tr itr rm.
  - intros -> ->. intros fresh st. unfold AffinityDataset.__getitem__.
    rewrite Hgx, Hgm, Htr, Hitr, Hrm. io_simpl.
    destruct (create_aff_target m) as [aff|e]; [|done]. by destruct rm.
Qed.

(** An index below [-len] or from [len] on raises [IndexError] before the
    generator is touched. *)
Theorem getitem_out_of_range root tr itr rm ds idx fresh st :
  __init__ root tr itr rm = Value ds →
  (idx < - Z.of_nat (__len__ ds) ∨ Z.of_nat (__len__ ds) ≤ idx)%Z →
  __getitem__ ds idx fresh st = (Exception IndexError, st).
Proof.
  intros Hinit Hidx. unfold AffinityDataset.__init__ in Hinit.
  apply init_value_inv in Hinit
    as (entries & _ & _ & _ & _ & _ & _ & Hl1 & _).
  cbn [fst] in Hl1.
  unfold AffinityDataset.__getitem__, AffinityDataset.__len__ in *.
  rewrite (list_getitem_out_of_range (loaded_imgs ds) idx); [done|by rewrite Hl1].
Qed.

(** With a transform set, a fetch reseeds the generator with a number
    that the program does not determine: the state the generator was in
    before the call has no part in the outcome. *)
Theorem getitem_discards_generator_state root t itr rm ds idx fresh st1 st2 :
  __init__ root (Some t) itr rm = Value ds →
  (- Z.of_nat (__len__ ds) ≤ idx < Z.of_nat (__len__ ds))%Z →
  __getitem__ ds idx fresh st1 = __getitem__ ds idx fresh st2.
Proof.
  intros Hinit Hidx.
  destruct (index_in_range _ _ Hidx) as (i & Hi & Hcase).
  destruct (init_slots root (Some t) itr rm ds i Hinit Hi)
    as (_ & _ & Htr & _ & _ & x & m & _ & _ & Hgx & Hgm).
  assert (__getitem__ ds (Z.of_nat i) fresh st1 = __getitem__ ds (Z.of_nat i) fresh st2).
  { unfold AffinityDataset.__getitem__. rewrite Hgx, Hgm, Htr. by io_simpl. }
  destruct Hcase as [->| ->]; [done|].
  by rewrite !(getitem_from_end root (Some t) itr rm ds i _ _ Hinit Hi).
Qed.

(** A transform that draws its parameters from the generator and then
    applies them treats the image and the mask alike: both are transformed
    with the parameters drawn in the state [seeded fresh]. *)
Theorem getitem_same_transform_for_image_and_mask
    {P : Type} (draw : R → P) (next : R → R) (apply : P → T → T)
    root t rm ds i :
  __init__ root (Some t) None rm = Value ds →
  (∀ x st, t x st = (Value (apply (draw st) x), next st)) →
  i < __len__ ds →
  ∃ x m,
    load_img root i = Value x ∧ load_mask root i = Value m ∧
    ∀ fresh st,
      __getitem__ ds (Z.of_nat i) fresh st
      = (let p := draw (seeded fresh) in
         aff_mask ← create_aff_target (apply p m);
         mret (if rm then Triple (apply p x) (apply p m) aff_mask
               else Pair (apply p x) aff_mask),
         next (seeded fresh)).
Proof.
  intros Hinit Ht Hi.
  destruct (init_slots root (Some t) None rm ds i Hinit Hi)
    as (_ & _ & Htr & Hitr & Hrm & x & m & Hx & Hm & Hgx & Hgm).
  exists x, m. split; [done|]. split; [done|]. intros fresh st.
  unfold AffinityDataset.__getitem__. rewrite Hgx, Hgm, Htr, Hitr, Hrm.
  io_simpl. rewrite !Ht.
  destruct (create_aff_target (apply (draw (seeded fresh)) m)) as [aff|e]; [|done].
  by destruct rm.
Qed.

End AffinityFacts.

(** ** Fetching a sample of the SDT dataset *)

Section SDTFacts.
Import Loader SDTDataset.

Context {A T R : Type}.
Context (listdir : string → outcome (list string)).
Context (imread : string → outcome A) (from_numpy : A → outcome T) (py_None : T).
Context (to_dtype normalize : T → outcome T) (seeded : Z → R).
Context (unsqueeze : T → Z → outcome T).

Local Abbreviation __init__ :=
  (SDTDataset.__init__ (R:=R) listdir imread from_numpy py_None to_dtype normalize).
Local Abbreviation __getitem__ := (SDTDataset.__getitem__ (R:=R) seeded unsqueeze).

(** As shipped, [SDTDataset.__getitem__] returns no sample: every call
    raises.  On a dataset built without transforms the exception is
    [IndexError] for an index out of range and [AttributeError] for every
    other index, and the generator is left alone. *)
Theorem sdt_getitem_never_returns :
  (∀ (ds : dataset T R) idx fresh st,
     ∃ e st', __getitem__ ds idx fresh st = (Exception e, st')) ∧
  (∀ root rm ds idx fresh st,
     __init__ root None None rm = Value ds →
     (∀ x, ∃ y, unsqueeze x 0%Z = Value y) →
     __getitem__ ds idx fresh st
     = (Exception
          (if bool_decide (- Z.of_nat (__len__ ds) ≤ idx < Z.of_nat (__len__ ds))%Z
           then AttributeError else IndexError), st)).
Proof.
  split.
  - intros ds idx fresh st. unfold SDTDataset.__getitem__. io_simpl.
    repeat case_match; by eexists _, _.
  - intros root rm ds idx fresh st Hinit Hun.
    unfold SDTDataset.__init__ in Hinit.
    apply init_value_inv in Hinit
      as (entries & _ & _ & _ & Hrm & Htr & Hitr & Hl1 & Hl2 & Hall & _).
    cbn [fst snd] in *.
    unfold SDTDataset.__len__ in *. case_bool_decide as Hidx.
    + destruct (index_in_range _ _ Hidx) as (i & Hi & Hcase).
      destruct (Hall i Hi) as (x & m & _ & _ & Hx & Hm).
      assert (list_getitem (loaded_imgs ds) idx = Value x) as Hgx.
      { destruct Hcase as [->| ->]; [by apply list_getitem_nonneg|].
        rewrite (list_getitem_from_end _ _ _ Hl1 Hi). by apply list_getitem_nonneg. }
      assert (list_getitem (loaded_masks ds) idx = Value m) as Hgm.
      { destruct Hcase as [->| ->]; [by apply list_getitem_nonneg|].
        rewrite (list_getitem_from_end _ _ _ Hl2 Hi). by apply list_getitem_nonneg. }
      unfold SDTDataset.__getitem__. rewrite Hgx, Hgm, Htr, Hitr. io_simpl.
      destruct (return_mask ds); [|done]. by destruct (Hun m) as [y ->].
    + unfold SDTDataset.__getitem__.
      rewrite (list_getitem_out_of_range (loaded_imgs ds) idx); [done|].
      rewrite Hl1. lia.
Qed.

End SDTFacts.

(** ** The files of a sample *)

Section NameFacts.
Import Loader.

Lemma pretty_N_char_digit x : is_digit (pretty_N_char x) = true.
Proof. unfold pretty_N_char. by repeat case_match. Qed.

Lemma pretty_N_go_digits x s : all_digits s → all_digits (pretty_N_go x s).
Proof.
  revert s. induction (N.lt_wf_0 x) as [x _ IH]; intros s Hs.
  assert (x = 0 ∨ 0 < x)%N as [->|?] by lia.
  - by rewrite pretty_N_go_0.
  - rewrite pretty_N_go_step by done. apply IH.
    { by apply N.div_lt. }
    split; [apply pretty_N_char_digit|done].
Qed.

Lemma pretty_nat_digits (n : nat) : all_digits (pretty n).
Proof.
  unfold pretty, pretty_nat, pretty, pretty_N.
  case_decide; [done|]. by apply pretty_N_go_digits.
Qed.

(** Two strings that start with digits and go on with something else
    agree only if the digits and the rests agree. *)
Lemma digits_app_inv a b x y :
  all_digits a → all_digits b → no_leading_digit x → no_leading_digit y →
  a +:+ x = b +:+ y → a = b ∧ x = y.
Proof.
  revert b. induction a as [|c a IH]; intros [|d b] Ha Hb Hx Hy Heq;
    unfold String.append in Heq; fold String.append in Heq; simpl in *.
  - done.
  - subst x. simpl in Hx. destruct Hb. congruence.
  - subst y. simpl in Hy. destruct Ha. congruence.
  - injection Heq as -> Heq. destruct Ha, Hb.
    by destruct (IH b) as [-> ->].
Qed.

Lemma string_app_assoc (a b c : string) : a +:+ b +:+ c = (a +:+ b) +:+ c.
Proof.
  induction a as [|x a IH]; unfold String.append; fold String.append; [done|].
  by rewrite IH.
Qed.

Lemma path_join_relative root name :
  String.prefix "/" name = false →
  path_join root name = dirname_prefix root +:+ name.
Proof.
  intros Hrel. unfold path_join, dirname_prefix. rewrite Hrel.
  destruct (bool_decide (root = "") || ends_with_sep root); [done|].
  apply string_app_assoc.
Qed.

Lemma sample_path_eq root (i : nat) suffix :
  path_join root ("img_" +:+ pretty i +:+ suffix)
  = (dirname_prefix root +:+ "img_") +:+ (pretty i +:+ suffix).
Proof. rewrite path_join_relative by done. apply string_app_assoc. Qed.

Lemma sample_path_inv root (i j : nat) s1 s2 :
  no_leading_digit s1 → no_leading_digit s2 →
  path_join root ("img_" +:+ pretty i +:+ s1)
  = path_join root ("img_" +:+ pretty j +:+ s2) →
  i = j ∧ s1 = s2.
Proof.
  intros H1 H2. rewrite !sample_path_eq. intros Heq.
  apply (inj (String.app _)) in Heq.
  apply digits_app_inv in Heq as [Hij ?]; auto using pretty_nat_digits.
  split; [|done]. by apply (inj pretty).
Qed.

(** The files the two datasets read from one directory are pairwise
    distinct: different sample indices name different image files and
    different mask files, and no image file is a mask file, nor a nuclei
    mask a cytoplasm mask. *)
Theorem sample_files_are_distinct root i j :
  (img_path root i = img_path root j → i = j) ∧
  (mask_path "_nuclei_masks.tif" root i = mask_path "_nuclei_masks.tif" root j
   → i = j) ∧
  (mask_path "_cyto_masks.tif" root i = mask_path "_cyto_masks.tif" root j → i = j) ∧
  img_path root i ≠ mask_path "_nuclei_masks.tif" root j ∧
  img_path root i ≠ mask_path "_cyto_masks.tif" root j ∧
  mask_path "_nuclei_masks.tif" root i ≠ mask_path "_cyto_masks.tif" root j.
Proof.
  unfold img_path, mask_path.
  repeat split; try (intros H; by apply sample_path_inv in H as [? ?]).
Qed.

End NameFacts.

(** ** The datasets on a directory of two samples *)

Section DatasetExamples.
Import Loader TrainDir.

Local Abbreviation load_img_1 :=
  (Loader.load_img imread from_numpy (AffinityDataset.inp_transforms normalize)
     "tissuenet_data/train" 1).
Local Abbreviation load_mask_1 :=
  (Loader.load_mask imread from_numpy "_cyto_masks.tif" "tissuenet_data/train" 1).
Local Abbreviation create_aff_target :=
  (AffinityDataset.create_aff_target from_numpy np_asarray compute_affinities to_float).

Lemma plain_data_value :
  ∃ ds, plain_data = Value ds ∧ AffinityDataset.__len__ ds = 2.
Proof. eexists. split; vm_compute; reflexivity. Qed.

Lemma train_data_value :
  ∃ ds, train_data = Value ds ∧ AffinityDataset.__len__ ds = 2.
Proof. eexists. split; vm_compute; reflexivity. Qed.

(** Sample 1 of the directory, fetched as [ds[1]] and as [ds[-1]]. *)
Lemma getitem_returns_loaded_sample_witness :
  ∃ ds x m,
    plain_data = Value ds ∧ load_img_1 = Value x ∧ load_mask_1 = Value m ∧
    (∀ fresh st, get ds (1 - Z.of_nat (AffinityDataset.__len__ ds)) fresh st
                 = get ds 1 fresh st) ∧
    (∀ fresh st, get ds 1 fresh st
                 = (aff_mask ← create_aff_target m; mret (Pair x aff_mask), st)).
Proof.
  destruct plain_data_value as (ds & Hinit & Hlen).
  assert (1 < AffinityDataset.__len__ ds) as Hi by (rewrite Hlen; lia).
  destruct (getitem_returns_loaded_sample listdir imread from_numpy None normalize
              seeded np_asarray compute_affinities to_float
              "tissuenet_data/train" None None false ds 1 Hinit Hi)
    as (x & m & Hx & Hm & Hneg & Hplain).
  exists ds, x, m. split; [exact Hinit|]. split; [exact Hx|]. split; [exact Hm|].
  split; [exact Hneg|]. exact (Hplain eq_refl eq_refl).
Defined.

(** The directory has two samples: the indices 2 and -3 are out of
    range. *)
Lemma getitem_out_of_range_witness :
  ∃ ds, plain_data = Value ds ∧
        get ds 2 0 5%Z = (Exception IndexError, 5%Z) ∧
        get ds (-3) 0 5%Z = (Exception IndexError, 5%Z).
Proof.
  destruct plain_data_value as (ds & Hinit & Hlen).
  assert (-3 < - Z.of_nat (AffinityDataset.__len__ ds))%Z as Hlow by (rewrite Hlen; lia).
  assert (Z.of_nat (AffinityDataset.__len__ ds) ≤ 2)%Z as Hhigh by (rewrite Hlen; lia).
  exists ds. split; [exact Hinit|]. split.
  - exact (getitem_out_of_range listdir imread from_numpy None normalize
             seeded np_asarray compute_affinities to_float
             "tissuenet_data/train" None None false ds 2%Z 0%Z 5%Z Hinit
             (or_intror Hhigh)).
  - exact (getitem_out_of_range listdir imread from_numpy None normalize
             seeded np_asarray compute_affinities to_float
             "tissuenet_data/train" None None false ds (-3)%Z 0%Z 5%Z Hinit
             (or_introl Hlow)).
Defined.

(** With the random crop, sample 1 drawn with the number 7 comes out the
    same from the generator states 0 and 99. *)
Lemma getitem_discards_generator_state_witness :
  ∃ ds, train_data = Value ds ∧ get ds 1 7 0%Z = get ds 1 7 99%Z.
Proof.
  destruct train_data_value as (ds & Hinit & Hlen).
  assert (- Z.of_nat (AffinityDataset.__len__ ds) ≤ 1
          < Z.of_nat (AffinityDataset.__len__ ds))%Z as Hidx by (rewrite Hlen; lia).
  exists ds. split; [exact Hinit|].
  exact (getitem_discards_generator_state listdir imread from_numpy None normalize
           seeded np_asarray compute_affinities to_float
           "tissuenet_data/train" random_crop None false ds 1%Z 7%Z 0%Z 99%Z
           Hinit Hidx).
Defined.

(** The random crop cuts the image and the mask of sample 1 at the same
    offset. *)
Lemma getitem_same_transform_for_image_and_mask_witness :
  ∃ ds x m,
    train_data = Value ds ∧ load_img_1 = Value x ∧ load_mask_1 = Value m ∧
    ∀ fresh st,
      get ds 1 fresh st
      = (let p := draw (seeded fresh) in
         aff_mask ← create_aff_target (crop p m);
         mret (Pair (crop p x) aff_mask),
         next (seeded fresh)).
Proof.
  destruct train_data_value as (ds & Hinit & Hlen).
  assert (1 < AffinityDataset.__len__ ds) as Hi by (rewrite Hlen; lia).
  destruct (getitem_same_transform_for_image_and_mask
              listdir imread from_numpy None normalize
              seeded np_asarray compute_affinities to_float draw next crop
              "tissuenet_data/train" random_crop false ds 1 Hinit
              (λ _ _, eq_refl) Hi)
    as (x & m & Hx & Hm & Hget).
  exists ds, x, m. split; [exact Hinit|]. split; [exact Hx|]. split; [exact Hm|].
  exact Hget.
Defined.

(** What the fetches compute: sample 1 as loaded, and cropped at the
    offset drawn with the number 7. *)
Example plain_data_sample_1 :
  ∃ ds, plain_data = Value ds ∧
        get ds 1 0 5%Z
        = (Value (Pair (Some [255; 1; -127; -255]%Z) (Some [1; 1; 0]%Z)), 5%Z).
Proof. eexists. split; vm_compute; reflexivity. Qed.

Example train_data_sample_1 :
  ∃ ds, train_data = Value ds ∧
        get ds 1 7 0%Z = (Value (Pair (Some [1; -127]%Z) (Some [1]%Z)), 8%Z).
Proof. eexists. split; vm_compute; reflexivity. Qed.

(** The SDT dataset on the same directory loads the nuclei masks and
    raises on a fetch; a directory that does not exist fails the
    construction. *)
Example sdt_data_sample_1 :
  ∃ ds, SDTDataset.__init__ listdir imread from_numpy None to_dtype normalize
          "tissuenet_data/train" None None true = Value ds ∧
        loaded_masks ds = [Some [0; 1; 2; 0]%Z; Some [0; 3; 0; 4]%Z] ∧
        SDTDataset.__getitem__ seeded unsqueeze ds 1 0 5%Z
        = (Exception AttributeError, 5%Z).
Proof. eexists. repeat split; vm_compute; reflexivity. Qed.

Example missing_directory :
  AffinityDataset.__init__ (R:=Z) listdir imread from_numpy None normalize
    "tissuenet_data/test" None None false
  = Exception (Raised "FileNotFoundError").
Proof. vm_compute. reflexivity. Qed.

End DatasetExamples.
